(** * localhost_mcp: the request/response pipeline and the port scan

    A shallow embedding of [server.py] (the three tools [fetch_url],
    [fetch_localhost], [check_ports] and their helper [make_request]) and
    the properties of it that the specification states.

    Conventions of the embedding:
    - a Python [str] is a list of Unicode code points ([pystr]), [bytes]
      is a list of [Byte.byte], an [int] is a [Z], a [float] a [float];
    - the effects of the program are those of its [httpx] client: setting
      it up, [await client.request(...)], and closing it; a computation
      is a finite tree ([io]) whose inner nodes are these steps and whose
      leaves are what a Python call ends in: a returned value or a raised
      exception ([outcome]);
    - [httpx] itself is outside the repository: the network answers
      through an arbitrary, possibly stateful, [send] function, and
      setting up and closing a client succeed or raise as two further
      such functions say (see [exec]; [run] is the case in which both
      always succeed). *)

From Stdlib Require Import List ZArith NArith Lia Bool String Ascii.
From Stdlib Require Import Decimal DecimalString PrimFloat.
Import ListNotations.

Set Implicit Arguments.
Local Open Scope Z_scope.

(* ================================================================= *)
(** ** Python strings *)

Module Py.

(** A [str]: the sequence of its code points. *)
Definition pystr : Type := list N.

(** [len(x)], for a [str] (counts characters) and for [bytes]. *)
Definition len {A : Type} (l : list A) : Z := Z.of_nat (List.length l).

(** [x[:n]] for a non-negative [n]. *)
Definition slice_to {A : Type} (n : Z) (l : list A) : list A :=
firstn (Z.to_nat n) l.

(** The source file is UTF-8; [utf8] reads a literal of it the way the
  Python parser does, so that the literals below can be written as they
  stand in [server.py]. Continuation bytes contribute their low six
  bits; a lead byte announces how many of them follow. *)
Fixpoint utf8_cont (k : nat) (acc : N) (bs : list N) : N * list N :=
match k, bs with
| S k', b :: bs' => utf8_cont k' (acc * 64 + N.land b 63)%N bs'
| _, _ => (acc, bs)
end.

Fixpoint utf8_go (fuel : nat) (bs : list N) : pystr :=
match fuel, bs with
| S fuel', b :: bs' =>
    let '(k, hi) :=
      if (b <? 128)%N then (0%nat, b)
      else if (b <? 224)%N then (1%nat, N.land b 31)
      else if (b <? 240)%N then (2%nat, N.land b 15)
      else (3%nat, N.land b 7) in
    let '(c, rest) := utf8_cont k hi bs' in
    c :: utf8_go fuel' rest
| _, _ => []
end.

Definition utf8 (s : string) : pystr :=
let bs := map N_of_ascii (list_ascii_of_string s) in
utf8_go (List.length bs) bs.

(** [str(n)] / [f"{n}"] for an [int]: decimal, with a leading minus sign. *)
Definition str_of_int (n : Z) : pystr :=
utf8 (NilZero.string_of_int (Z.to_int n)).

(** [sep.join(parts)]. *)
Fixpoint join (sep : pystr) (parts : list pystr) : pystr :=
match parts with
| [] => []
| [p] => p
| p :: ps => p ++ sep ++ join sep ps
end.

(** [s.startswith(prefix)]. *)
Fixpoint startswith (s prefix : pystr) {struct prefix} : bool :=
match prefix, s with
| [], _ => true
| p :: prefix', c :: s' => (c =? p)%N && startswith s' prefix'
| _ :: _, [] => false
end.

(** Equality of strings, [a == b]. *)
Definition str_eqb (a b : pystr) : bool :=
if list_eq_dec N.eq_dec a b then true else false.

(** [x in (a, b, c)] on strings. *)
Definition str_in (x : pystr) (xs : list pystr) : bool :=
existsb (str_eqb x) xs.

(** [s.upper()]. Python maps every character through the full uppercase
  mapping of the Unicode database, which may yield several characters.
  On the ASCII range that is [a-z] to [A-Z]; above it the table is the
  interpreter's, and is taken as a parameter. *)
Definition upper_char (unicode_upper : N -> pystr) (c : N) : pystr :=
if (c <? 128)%N
then (if (97 <=? c)%N && (c <=? 122)%N then [c - 32] else [c])%N
else unicode_upper c.

Definition upper (unicode_upper : N -> pystr) (s : pystr) : pystr :=
flat_map (upper_char unicode_upper) s.

(** Truthiness of an [Optional[str]]: [None] and [""] are falsy. *)
Definition truthy_str (o : option pystr) : bool :=
match o with
| None => false
| Some [] => false
| Some (_ :: _) => true
end.

End Py.
Import Py.

Arguments utf8 : simpl never.
Arguments str_of_int : simpl never.
Arguments len : simpl never.
Arguments slice_to : simpl never.

(** Literals. Python's escape [\n] is the character [nl]. *)
Definition nl : pystr := [10%N].
Notation "'$' s" := (utf8 s) (at level 1, s at level 0, format "'$' s").

(* ================================================================= *)
(** ** What httpx hands to the program *)

(** A Python [dict] of strings, in insertion order. *)
Definition dict : Type := list (pystr * pystr).

(** [d or {}] for an [Optional[dict]]: [None] and the empty dict are
    falsy, and both give the empty dict. *)
Definition dict_or_empty (d : option dict) : dict :=
  match d with
  | None => []
  | Some [] => []
  | Some (kv :: d') => kv :: d'
  end.

(** [httpx.Headers], the multi-dict of a response: the header fields in
    the order they were received, each as (name, value). The class keeps
    the name lower-cased next to the name as sent, and every method used
    in [server.py] reads the lower-cased one; that is the name held here. *)
Module Headers.

Definition t : Type := list (pystr * pystr).

(** One step of the library's loop over the fields, on the dict it
    builds: [if k in d: d[k] += f", {v}"  else: d[k] = v]. *)
Fixpoint add (d : dict) (k v : pystr) : dict :=
  match d with
  | [] => [(k, v)]
  | (k', v') :: d' =>
      if str_eqb k' k then (k', v' ++ $", " ++ v) :: d'
      else (k', v') :: add d' k v
  end.

(** [h.items()]. The library documents it as: return (key, value)
    items of headers, concatenating headers into a single comma
    separated value when a key occurs multiple times. *)
Definition items (h : t) : list (pystr * pystr) :=
  fold_left (fun d kv => add d (fst kv) (snd kv)) h [].

(** [h.get(key, default)] for a lower-case [key]: the values of all the
    fields of that name joined with [", "], or [default] if there is
    none. *)
Definition get (h : t) (key default : pystr) : pystr :=
  match filter (fun kv => str_eqb (fst kv) key) h with
  | [] => default
  | kvs => join $", " (map snd kvs)
  end.

End Headers.

(** [httpx.Response], with the attributes [server.py] reads. [content] is
    the raw body, [text] the body decoded by the library. *)
Module Response.
Record t : Type := {
  status_code : Z;
  reason_phrase : pystr;
  headers : Headers.t;
  content : list Byte.byte;
  text : pystr
}.
End Response.

(** The subclasses of [httpx.TimeoutException]. *)
Inductive timeout_class : Type :=
  ConnectTimeout | ReadTimeout | WriteTimeout | PoolTimeout.

(** Exceptions, i.e. instances of [Exception], by the classes the
    [except] clauses of [server.py] tell apart. [msg] is [str(e)].
    Signals that are not [Exception]s (task cancellation, interpreter
    exit) are not failures of a request and are not modelled. *)
Inductive exn : Type :=
| ConnectError (msg : pystr)
| TimeoutException (cls : timeout_class) (msg : pystr)
| HTTPStatusError (msg : pystr) (response : Response.t)
| OtherException (type_name : pystr) (msg : pystr).

(** [isinstance(e, C)] for the classes named in [except] clauses. *)
Definition is_ConnectError (e : exn) : bool :=
  match e with ConnectError _ => true | _ => false end.
Definition is_TimeoutException (e : exn) : bool :=
  match e with TimeoutException _ _ => true | _ => false end.
Definition is_HTTPStatusError (e : exn) : bool :=
  match e with HTTPStatusError _ _ => true | _ => false end.
Definition is_Exception (e : exn) : bool := true.

(** [type(e).__name__]. *)
Definition type_name_of (e : exn) : pystr :=
  match e with
  | ConnectError _ => $"ConnectError"
  | TimeoutException ConnectTimeout _ => $"ConnectTimeout"
  | TimeoutException ReadTimeout _ => $"ReadTimeout"
  | TimeoutException WriteTimeout _ => $"WriteTimeout"
  | TimeoutException PoolTimeout _ => $"PoolTimeout"
  | HTTPStatusError _ _ => $"HTTPStatusError"
  | OtherException n _ => n
  end.

(** [str(e)], as in [f"{e}"]. *)
Definition str_of_exn (e : exn) : pystr :=
  match e with
  | ConnectError m | TimeoutException _ m
  | HTTPStatusError m _ | OtherException _ m => m
  end.

(** [e.response]; only an [HTTPStatusError] has the attribute. *)
Definition response_of (e : exn) : option Response.t :=
  match e with HTTPStatusError _ r => Some r | _ => None end.

(** How a Python call ends. *)
Inductive outcome (A : Type) : Type :=
| Returns (a : A)
| Raises (e : exn).
Arguments Returns {A} a.
Arguments Raises {A} e.

(** [httpx.AsyncClient(timeout=..., follow_redirects=...)]. *)
Record ClientConfig : Type := {
  cfg_timeout : float;
  cfg_follow_redirects : bool
}.

(** The arguments of [client.request(method, url, **kwargs)]; a keyword
    that is not passed is [None]. *)
Record RequestArgs : Type := {
  req_method : pystr;
  req_url : pystr;
  req_headers : option dict;
  req_content : option pystr
}.

(* ================================================================= *)
(** ** Computations that await requests *)

(** [Open] is the construction of an [httpx.AsyncClient] and its
    [__aenter__], [Close] its [__aexit__], [Await] one
    [await client.request(...)]; each may raise. *)
Inductive io (A : Type) : Type :=
| Pure (o : outcome A)
| Await (cfg : ClientConfig) (req : RequestArgs)
        (k : outcome Response.t -> io A)
| Open (cfg : ClientConfig) (k : outcome unit -> io A)
| Close (cfg : ClientConfig) (k : outcome unit -> io A).
Arguments Pure {A} o.
Arguments Await {A} cfg req k.
Arguments Open {A} cfg k.
Arguments Close {A} cfg k.

Definition ret {A : Type} (a : A) : io A := Pure (Returns a).
Definition raise {A : Type} (e : exn) : io A := Pure (Raises e).

Fixpoint bind {A B : Type} (m : io A) (f : A -> io B) : io B :=
  match m with
  | Pure (Returns a) => f a
  | Pure (Raises e) => Pure (Raises e)
  | Await cfg req k => Await cfg req (fun o => bind (k o) f)
  | Open cfg k => Open cfg (fun o => bind (k o) f)
  | Close cfg k => Close cfg (fun o => bind (k o) f)
  end.

Notation "x <- m ;; k" := (bind m (fun x => k))
  (at level 61, m at next level, right associativity).

(** [await client.request(method, url, **kwargs)]. *)
Definition client_request (client : ClientConfig) (method url : pystr)
    (kw_headers : option dict) (kw_content : option pystr) : io Response.t :=
  Await client
        {| req_method := method; req_url := url;
           req_headers := kw_headers; req_content := kw_content |}
        Pure.

(** [await client.get(url)]. *)
Definition client_get (client : ClientConfig) (url : pystr) : io Response.t :=
  client_request client $"GET" url None None.

(** An [except C as e: ...] clause. *)
Record except_clause (A : Type) : Type := Except {
  catches : exn -> bool;
  handler : exn -> io A
}.

(** The clauses are tried in order; the first whose class the exception
    is an instance of handles it, and with none it propagates. *)
Fixpoint selected {A : Type} (e : exn) (clauses : list (except_clause A))
    : option nat :=
  match clauses with
  | [] => None
  | c :: cs =>
      if catches c e then Some 0%nat else option_map S (selected e cs)
  end.

Definition dispatch {A : Type} (e : exn) (clauses : list (except_clause A))
    : io A :=
  match selected e clauses with
  | Some i =>
      match nth_error clauses i with
      | Some c => handler c e
      | None => raise e
      end
  | None => raise e
  end.

Fixpoint try_except {A : Type} (body : io A)
    (clauses : list (except_clause A)) : io A :=
  match body with
  | Pure (Returns a) => Pure (Returns a)
  | Pure (Raises e) => dispatch e clauses
  | Await cfg req k => Await cfg req (fun o => try_except (k o) clauses)
  | Open cfg k => Open cfg (fun o => try_except (k o) clauses)
  | Close cfg k => Close cfg (fun o => try_except (k o) clauses)
  end.

(** Run [m], and go on with [f] from how [m] ended, whether it returned
    or raised. *)
Fixpoint leaving {A B : Type} (m : io A) (f : outcome A -> io B) : io B :=
  match m with
  | Pure o => f o
  | Await cfg req k => Await cfg req (fun o => leaving (k o) f)
  | Open cfg k => Open cfg (fun o => leaving (k o) f)
  | Close cfg k => Close cfg (fun o => leaving (k o) f)
  end.

(** [async with httpx.AsyncClient(...) as client: body]. The client is
    constructed and entered first, and if that raises the body does not
    run. On the way out the client is closed, whether the body returned
    or raised; if closing raises, that exception is how the statement
    ends, and otherwise it ends as the body did. *)
Definition async_with_client {A : Type} (cfg : ClientConfig)
    (body : ClientConfig -> io A) : io A :=
  Open cfg (fun entered =>
    match entered with
    | Raises e => raise e
    | Returns _ =>
        leaving (body cfg) (fun ended =>
          Close cfg (fun closed =>
            match closed with
            | Raises e => raise e
            | Returns _ => Pure ended
            end))
    end).

(** *** Running a computation against a network *)

(** One request as it went out, and what came back. *)
Record exchange : Type := {
  sent_cfg : ClientConfig;
  sent_req : RequestArgs;
  answer : outcome Response.t
}.

Record run_result (World A : Type) : Type := {
  result : outcome A;
  world : World;
  log : list exchange
}.

Section Exec.
Variable World : Type.
(** Setting up a client and closing it: each succeeds or raises, and may
    change the world while doing so. *)
Variable opening closing : World -> ClientConfig -> outcome unit * World.
(** The network and everything behind it: it answers a request with a
    response or an exception, and may change while doing so. *)
Variable send :
  World -> ClientConfig -> RequestArgs -> outcome Response.t * World.

Fixpoint exec_from {A : Type} (m : io A) (w : World) (sofar : list exchange)
    : run_result World A :=
  match m with
  | Pure o => {| result := o; world := w; log := sofar |}
  | Await cfg req k =>
      let '(o, w') := send w cfg req in
      exec_from (k o) w'
        (sofar ++ [{| sent_cfg := cfg; sent_req := req; answer := o |}])
  | Open cfg k => let '(o, w') := opening w cfg in exec_from (k o) w' sofar
  | Close cfg k => let '(o, w') := closing w cfg in exec_from (k o) w' sofar
  end.

Definition exec {A : Type} (m : io A) (w : World) : run_result World A :=
  exec_from m w [].
End Exec.

(** A client that is set up, or closed, without failure. *)
Definition healthy {World : Type} (w : World) (_ : ClientConfig)
    : outcome unit * World := (Returns tt, w).

(** Running a computation whose clients are set up and closed without
    failure: what is left is the traffic with the network. *)
Definition run_from {World A : Type}
    (send : World -> ClientConfig -> RequestArgs -> outcome Response.t * World)
    (m : io A) (w : World) (sofar : list exchange) : run_result World A :=
  exec_from healthy healthy send m w sofar.

Definition run {World A : Type}
    (send : World -> ClientConfig -> RequestArgs -> outcome Response.t * World)
    (m : io A) (w : World) : run_result World A :=
  run_from send m w [].

(* ================================================================= *)
(** ** server.py *)

(** Configuration *)
Definition DEFAULT_TIMEOUT : float := 30%float.
Definition MAX_CONTENT_LENGTH : Z := 500000.

(** Input model for fetching any URL, after validation. *)
Module FetchUrlInput.
Record t : Type := {
  url : pystr;
  method : pystr;
  headers : option dict;
  body : option pystr;
  timeout : float
}.
End FetchUrlInput.

(** Input model for localhost shorthand, after validation. *)
Module FetchLocalhostInput.
Record t : Type := {
  port : Z;
  path : pystr;
  method : pystr;
  headers : option dict;
  body : option pystr
}.
End FetchLocalhostInput.

Section Server.
(** The interpreter's part of [str.upper] and of [f"{x}"] on a float. *)
Variable unicode_upper : N -> pystr.
Variable float_str : float -> pystr.

(** [method.upper()]. *)
Definition method_upper (method : pystr) : pystr :=
  upper unicode_upper method.

(** The four [except] clauses of [make_request], in source order. *)
Definition make_request_clauses (url : pystr) (timeout : float)
    : list (except_clause pystr) :=
  [ Except is_ConnectError (fun e =>
      ret ($"**Connection Error:** Could not connect to " ++ url ++ nl ++ nl
           ++ $"Make sure the server is running. Error: " ++ str_of_exn e));
    Except is_TimeoutException (fun _ =>
      ret ($"**Timeout:** Request to " ++ url ++ $" timed out after "
           ++ float_str timeout ++ $" seconds"));
    Except is_HTTPStatusError (fun e =>
      match response_of e with
      | Some e_response =>
          ret ($"**HTTP Error:** "
               ++ str_of_int (Response.status_code e_response)
               ++ $" - " ++ Response.reason_phrase e_response)
      | None =>
          raise (OtherException $"AttributeError"
                   ($"'" ++ type_name_of e
                    ++ $"' object has no attribute 'response'"))
      end);
    Except is_Exception (fun e =>
      ret ($"**Error:** " ++ type_name_of e ++ $": " ++ str_of_exn e)) ].

(** The [try] block of [make_request] from the response on (source
    lines 98 to 121): read the response and format the report. *)
Definition format_response (url : pystr) (response : Response.t) : pystr :=
  (* Get response info *)
  let status := Response.status_code response in
  let content_type :=
    Headers.get (Response.headers response) $"content-type" $"unknown" in
  (* Get response body *)
  let content := Response.text response in
  let content :=
    if len content >? MAX_CONTENT_LENGTH
    then slice_to MAX_CONTENT_LENGTH content ++ nl ++ nl
         ++ $"... [TRUNCATED - Response exceeded "
         ++ str_of_int MAX_CONTENT_LENGTH ++ $" bytes]"
    else content in
  (* Format response *)
  let result :=
    $"## Response from " ++ url ++ nl
    ++ nl
    ++ $"**Status:** " ++ str_of_int status ++ $" "
    ++ Response.reason_phrase response ++ nl
    ++ $"**Content-Type:** " ++ content_type ++ nl
    ++ $"**Content-Length:** "
    ++ str_of_int (len (Response.content response)) ++ $" bytes" ++ nl
    ++ nl
    ++ $"### Headers" ++ nl in
  let result :=
    fold_left
      (fun result kv => result ++ $"- " ++ fst kv ++ $": " ++ snd kv ++ nl)
      (Headers.items (Response.headers response)) result in
  result ++ nl ++ $"### Body" ++ nl ++ nl ++ $"```" ++ nl
  ++ content ++ nl ++ $"```".

(** Make HTTP request and return formatted response. The [try] is
    inside the [async with]: setting up the client and closing it are
    not covered by the [except] clauses. *)
Definition make_request (url method : pystr) (headers : option dict)
    (body : option pystr) (timeout : float) : io pystr :=
  async_with_client
    {| cfg_timeout := timeout; cfg_follow_redirects := true |}
    (fun client =>
       try_except
         ((* Prepare request kwargs *)
          let kwargs_headers := Some (dict_or_empty headers) in
          let kwargs_content :=
            if truthy_str body
               && str_in (method_upper method) [$"POST"; $"PUT"; $"PATCH"]
            then body else None in
          (* Make the request *)
          response <- client_request client (method_upper method) url
                        kwargs_headers kwargs_content ;;
          ret (format_response url response))
         (make_request_clauses url timeout)).

(** Fetch any URL including localhost, local network, and external
    URLs. *)
Definition fetch_url (params : FetchUrlInput.t) : io pystr :=
  make_request (FetchUrlInput.url params) (FetchUrlInput.method params)
    (FetchUrlInput.headers params) (FetchUrlInput.body params)
    (FetchUrlInput.timeout params).

(** Shorthand for fetching localhost URLs - just specify port and
    path. *)
Definition fetch_localhost (params : FetchLocalhostInput.t) : io pystr :=
  (* Build localhost URL *)
  let path :=
    if startswith (FetchLocalhostInput.path params) $"/"
    then FetchLocalhostInput.path params
    else $"/" ++ FetchLocalhostInput.path params in
  let url :=
    $"http://localhost:" ++ str_of_int (FetchLocalhostInput.port params)
    ++ path in
  make_request url (FetchLocalhostInput.method params)
    (FetchLocalhostInput.headers params) (FetchLocalhostInput.body params)
    DEFAULT_TIMEOUT.

End Server.

(** The three [except] clauses around a probe of [check_ports]. *)
Definition check_ports_clauses : list (except_clause pystr) :=
  [ Except is_ConnectError (fun _ => ret $"❌ Closed/Not responding");
    Except is_TimeoutException (fun _ => ret $"⏳ Timeout (might be busy)");
    Except is_Exception (fun e => ret ($"⚠️ Error: " ++ type_name_of e)) ].

Definition common_ports : list Z :=
  [3000; 3001; 4000; 5000; 5173; 5174; 8000; 8080; 8888].

(** The body of [for port in common_ports], from [port] on, with the
    [results] list threaded through. *)
Fixpoint check_ports_loop (client : ClientConfig) (ports : list Z)
    (results : list pystr) : io (list pystr) :=
  match ports with
  | [] => ret results
  | port :: ports' =>
      let url := $"http://localhost:" ++ str_of_int port ++ $"/" in
      status <-
        try_except
          (response <- client_get client url ;;
           ret ($"✅ **OPEN** - Status "
                ++ str_of_int (Response.status_code response)))
          check_ports_clauses ;;
      check_ports_loop client ports'
        (results ++ [$"- **Port " ++ str_of_int port ++ $":** " ++ status])
  end.

(** Scan common development ports to see what's running locally. *)
Definition check_ports : io pystr :=
  let results := [$"## Local Port Scan Results" ++ nl] in
  results <-
    async_with_client
      {| cfg_timeout := 2%float; cfg_follow_redirects := false |}
      (fun client => check_ports_loop client common_ports results) ;;
  ret (join nl results).

(* ================================================================= *)
(** ** The specification's vocabulary *)

(** The per-port outcome mapping as the specification words it: a
    successful response (any status code) is OPEN with the status code
    shown; a connection failure is CLOSED; a timeout is TIMEOUT, labelled
    as might be busy; any other error is ERROR with the error-kind
    label. *)
Inductive spec_port_label : outcome Response.t -> pystr -> Prop :=
| label_open (r : Response.t) :
    spec_port_label (Returns r)
      ($"✅ **OPEN** - Status " ++ str_of_int (Response.status_code r))
| label_closed (msg : pystr) :
    spec_port_label (Raises (ConnectError msg)) $"❌ Closed/Not responding"
| label_timeout (cls : timeout_class) (msg : pystr) :
    spec_port_label (Raises (TimeoutException cls msg))
      $"⏳ Timeout (might be busy)"
| label_error (e : exn) :
    is_ConnectError e = false -> is_TimeoutException e = false ->
    spec_port_label (Raises e) ($"⚠️ Error: " ++ type_name_of e).

(** The bullet of one port in the scan report. *)
Definition bullet (port : Z) (label : pystr) : pystr :=
  $"- **Port " ++ str_of_int port ++ $":** " ++ label.

(** The probe of one port: [GET http://localhost:<port>/], nothing else
    passed. *)
Definition probe (port : Z) : RequestArgs :=
  {| req_method := $"GET";
     req_url := $"http://localhost:" ++ str_of_int port ++ $"/";
     req_headers := None; req_content := None |}.

(** Ports, exchanges and report lines that go together one to one. *)
Inductive scanned : list Z -> list exchange -> list pystr -> Prop :=
| scanned_nil : scanned [] [] []
| scanned_cons (port : Z) (ex : exchange) (label : pystr) ports exs lines :
    sent_req ex = probe port ->
    spec_port_label (answer ex) label ->
    scanned ports exs lines ->
    scanned (port :: ports) (ex :: exs) (bullet port label :: lines).

(** What [make_request] passes to [client.request], and the client it
    passes it through, written out: the upper-cased method, the URL, the
    headers or an empty dict, and the body as content when it is truthy
    and the upper-cased method is POST, PUT or PATCH. *)
Definition outgoing (unicode_upper : N -> pystr) (url method : pystr)
    (headers : option dict) (body : option pystr) : RequestArgs :=
  {| req_method := method_upper unicode_upper method;
     req_url := url;
     req_headers := Some (dict_or_empty headers);
     req_content :=
       if truthy_str body
          && str_in (method_upper unicode_upper method)
               [$"POST"; $"PUT"; $"PATCH"]
       then body else None |}.

Definition client_of (timeout : float) : ClientConfig :=
  {| cfg_timeout := timeout; cfg_follow_redirects := true |}.

(** One [- key: value] line of the report. *)
Definition header_line (kv : pystr * pystr) : pystr :=
  $"- " ++ fst kv ++ $": " ++ snd kv ++ nl.

(** The header list as the specification words it: a line for every
    header of the response, duplicates preserved, in response order. *)
Definition spec_header_lines (response : Response.t) : pystr :=
  List.concat (map header_line (Response.headers response)).

(** Header names in the order of their first occurrence. *)
Fixpoint first_occurrences (names : list pystr) : list pystr :=
  match names with
  | [] => []
  | n :: names' =>
      n :: filter (fun n' => negb (str_eqb n' n)) (first_occurrences names')
  end.

(** The values of all the fields called [name], in order. *)
Definition values_of (h : Headers.t) (name : pystr) : list pystr :=
  map snd (filter (fun kv => str_eqb (fst kv) name) h).

(** The layout of the report of a response (source lines 108 to 119),
    from the values that fill it. *)
Definition report_layout (url : pystr) (status : Z)
    (reason content_type : pystr) (content_length : Z)
    (header_lines shown_body : pystr) : pystr :=
  $"## Response from " ++ url ++ nl
  ++ nl
  ++ $"**Status:** " ++ str_of_int status ++ $" " ++ reason ++ nl
  ++ $"**Content-Type:** " ++ content_type ++ nl
  ++ $"**Content-Length:** " ++ str_of_int content_length ++ $" bytes" ++ nl
  ++ nl
  ++ $"### Headers" ++ nl
  ++ header_lines
  ++ nl ++ $"### Body" ++ nl ++ nl ++ $"```" ++ nl
  ++ shown_body ++ nl ++ $"```".

(** The number of newline characters of a string. *)
Definition newlines (s : pystr) : nat := count_occ N.eq_dec s 10%N.

(** A string of ASCII characters only. *)
Definition ascii_only (s : pystr) : Prop := Forall (fun c => (c < 128)%N) s.

(* ================================================================= *)
(** ** Concrete interpreters, responses and networks *)

Module Sample.

(** An interpreter whose strings are all ASCII. *)
Definition unicode_upper (c : N) : pystr := [c].

(** [str] of the two floats that occur in [server.py]. *)
Definition float_str (f : float) : pystr :=
  if PrimFloat.eqb f 30 then $"30.0"
  else if PrimFloat.eqb f 2 then $"2.0" else $"?".

Definition not_found : Response.t :=
  {| Response.status_code := 404;
     Response.reason_phrase := $"Not Found";
     Response.headers := [($"content-type", $"text/plain")];
     Response.content := [Byte.x6e; Byte.x6f];
     Response.text := $"no" |}.

(** A response that sets two cookies. *)
Definition two_cookies : Response.t :=
  {| Response.status_code := 200;
     Response.reason_phrase := $"OK";
     Response.headers :=
       [($"set-cookie", $"a=1"); ($"content-type", $"text/html");
        ($"set-cookie", $"b=2")];
     Response.content := [Byte.x68; Byte.x69];
     Response.text := $"hi" |}.

(** A response of 500,001 characters, each of two bytes. *)
Definition long_text : pystr := repeat 233%N (Z.to_nat 500001).
Definition long_content : list Byte.byte :=
  flat_map (fun _ => [Byte.xc3; Byte.xa9]) long_text.
Definition large : Response.t :=
  {| Response.status_code := 200;
     Response.reason_phrase := $"OK";
     Response.headers := [];
     Response.content := long_content;
     Response.text := long_text |}.

(** A network without state that answers every request alike. *)
Definition always (o : outcome Response.t)
    (w : unit) (_ : ClientConfig) (_ : RequestArgs)
    : outcome Response.t * unit := (o, w).

(** A network in which only the server on port 5173 listens. *)
Definition only_5173 (w : unit) (_ : ClientConfig) (req : RequestArgs)
    : outcome Response.t * unit :=
  (if str_eqb (req_url req) (req_url (probe 5173))
   then Returns two_cookies
   else Raises (ConnectError $"All connection attempts failed"), w).

(** A plain GET of [url] with the default timeout, and the exchange it
    gives rise to when the network answers [o]. *)
Definition get (url : pystr) : io pystr :=
  make_request unicode_upper float_str url $"GET" None None DEFAULT_TIMEOUT.

Definition get_exchange (url : pystr) (o : outcome Response.t) : exchange :=
  {| sent_cfg := {| cfg_timeout := 30%float; cfg_follow_redirects := true |};
     sent_req := {| req_method := $"GET"; req_url := url;
                    req_headers := Some []; req_content := None |};
     answer := o |}.

Definition localhost_input : FetchLocalhostInput.t :=
  {| FetchLocalhostInput.port := 3000;
     FetchLocalhostInput.path := $"api/users";
     FetchLocalhostInput.method := $"GET";
     FetchLocalhostInput.headers := None;
     FetchLocalhostInput.body := None |}.

(** A response without any header. *)
Definition bare : Response.t :=
  {| Response.status_code := 204;
     Response.reason_phrase := $"No Content";
     Response.headers := [];
     Response.content := [];
     Response.text := $"" |}.

(** A network on which every request fails outside httpx's own classes. *)
Definition broken (w : unit) (_ : ClientConfig) (_ : RequestArgs)
    : outcome Response.t * unit :=
  (Raises (OtherException $"OSError" $"Network is unreachable"), w).

(** A server that is overloaded. *)
Definition unavailable : Response.t :=
  {| Response.status_code := 503;
     Response.reason_phrase := $"Service Unavailable";
     Response.headers := [];
     Response.content := [];
     Response.text := $"" |}.

(** A process in which no client can be set up: constructing it raises,
    as it does when the environment names a proxy that httpx rejects. *)
Definition no_client (w : unit) (_ : ClientConfig) : outcome unit * unit :=
  (Raises (OtherException $"ValueError" $"Unknown scheme for proxy URL"), w).

End Sample.

(* ================================================================= *)
(** ** Properties *)

(** *** Strings *)

Example utf8_ascii : $"GET" = [71; 69; 84]%N.
Proof. reflexivity. Qed.

Example utf8_symbols :
  $"✅" = [9989]%N /\ $"❌" = [10060]%N /\ $"⏳" = [9203]%N
  /\ $"⚠️" = [9888; 65039]%N.
Proof. repeat split. Qed.

Example str_of_int_examples :
  str_of_int 0 = $"0" /\ str_of_int 500000 = $"500000"
  /\ str_of_int (-7) = $"-7".
Proof. repeat split. Qed.

Example upper_examples :
  upper Sample.unicode_upper $"post" = $"POST"
  /\ upper Sample.unicode_upper $"Patch" = $"PATCH"
  /\ upper Sample.unicode_upper $"x-1{" = $"X-1{".
Proof. repeat split. Qed.

Example join_examples :
  join $", " [] = [] /\ join $", " [$"a"] = $"a"
  /\ join $", " [$"a"; $"b"; $"c"] = $"a, b, c".
Proof. repeat split. Qed.

Lemma str_eqb_eq (a b : pystr) : str_eqb a b = true <-> a = b.
Proof.
  unfold str_eqb. destruct (list_eq_dec N.eq_dec a b); split;
    congruence.
Qed.

Lemma str_eqb_refl (a : pystr) : str_eqb a a = true.
Proof. now apply str_eqb_eq. Qed.

Lemma str_eqb_neq (a b : pystr) : str_eqb a b = false <-> a <> b.
Proof.
  unfold str_eqb. destruct (list_eq_dec N.eq_dec a b); split;
    congruence.
Qed.

Lemma str_in_In (x : pystr) (xs : list pystr) :
  str_in x xs = true <-> In x xs.
Proof.
  unfold str_in. rewrite existsb_exists. split.
  - intros (y & Hy & E). apply str_eqb_eq in E. now subst.
  - intros H. exists x. split; [assumption | apply str_eqb_refl].
Qed.

Lemma startswith_slash (s : pystr) :
  startswith s $"/" = true <-> exists rest, s = $"/" ++ rest.
Proof.
  change $"/" with [47%N]. destruct s as [|c s]; simpl.
  - split; [discriminate | intros (rest & H); discriminate].
  - rewrite andb_true_r, N.eqb_eq. split.
    + intros ->. now exists s.
    + intros (rest & H). now injection H.
Qed.

(** On ASCII, upper-casing twice is upper-casing once. *)
Lemma upper_char_ascii (unicode_upper : N -> pystr) (c : N) :
  (c < 128)%N ->
  exists c', upper_char unicode_upper c = [c'] /\ (c' < 128)%N
             /\ upper_char unicode_upper c' = [c'].
Proof.
  intros Hc. unfold upper_char.
  destruct (N.ltb_spec c 128) as [_ | Hge]; [| lia].
  destruct (N.leb_spec 97 c) as [Hlo | Hlo];
    [destruct (N.leb_spec c 122) as [Hhi | Hhi] |]; cbn [andb].
  - exists (c - 32)%N. split; [reflexivity | split; [lia |]].
    destruct (N.ltb_spec (c - 32) 128) as [_ | Hge]; [| lia].
    destruct (N.leb_spec 97 (c - 32)) as [Hlo' | _]; [lia | reflexivity].
  - exists c. split; [reflexivity | split; [exact Hc |]].
    destruct (N.ltb_spec c 128) as [_ | Hge]; [| lia].
    destruct (N.leb_spec 97 c) as [_ | Hlo']; [| lia].
    destruct (N.leb_spec c 122) as [Hhi' | _]; [lia | reflexivity].
  - exists c. split; [reflexivity | split; [exact Hc |]].
    destruct (N.ltb_spec c 128) as [_ | Hge]; [| lia].
    destruct (N.leb_spec 97 c) as [Hlo' | _]; [lia | reflexivity].
Qed.

Lemma upper_idempotent (unicode_upper : N -> pystr) (s : pystr) :
  ascii_only s ->
  upper unicode_upper (upper unicode_upper s) = upper unicode_upper s.
Proof.
  unfold upper. induction 1 as [| c s Hc Hs IH]; [reflexivity |].
  cbn [flat_map]. rewrite flat_map_app, IH.
  destruct (upper_char_ascii unicode_upper Hc) as (c' & -> & _ & Hc').
  cbn [flat_map]. now rewrite Hc', app_nil_r.
Qed.

(** Reading an ASCII literal gives its characters one by one. *)
Lemma utf8_go_ascii (bs : list N) (fuel : nat) :
  Forall (fun b => (b < 128)%N) bs -> (List.length bs <= fuel)%nat ->
  utf8_go fuel bs = bs.
Proof.
  intros Hbs. revert fuel.
  induction Hbs as [| b bs Hb Hbs IH]; intros fuel Hfuel.
  - now destruct fuel.
  - destruct fuel as [|fuel]; [cbn in Hfuel; lia |].
    cbn [utf8_go]. destruct (N.ltb_spec b 128) as [_ | Hge]; [| lia].
    cbn [utf8_cont]. f_equal. apply IH. cbn in Hfuel. lia.
Qed.

(** The characters of a decimal numeral are digits. *)
Lemma string_of_uint_digits (d : Decimal.uint) :
  Forall (fun b => (48 <= b <= 57)%N)
    (map N_of_ascii (list_ascii_of_string (NilEmpty.string_of_uint d))).
Proof.
  induction d; cbn [NilEmpty.string_of_uint list_ascii_of_string map];
    constructor; try assumption; vm_compute; split; discriminate.
Qed.

(** [str(n)] consists of digits and at most a minus sign. *)
Lemma str_of_int_chars (n : Z) :
  Forall (fun c => (48 <= c <= 57)%N \/ c = 45%N) (str_of_int n).
Proof.
  unfold str_of_int, utf8.
  set (bs := map N_of_ascii
               (list_ascii_of_string (NilZero.string_of_int (Z.to_int n)))).
  assert (H : Forall (fun c => (48 <= c <= 57)%N \/ c = 45%N) bs).
  { subst bs. unfold NilZero.string_of_int, NilZero.string_of_uint.
    destruct (Z.to_int n) as [d | d].
    - destruct d; try (eapply Forall_impl;
                       [| apply string_of_uint_digits]; cbv beta; tauto).
      constructor; [left; vm_compute; split; discriminate | constructor].
    - cbn [list_ascii_of_string map]. constructor; [now right |].
      destruct d; try (eapply Forall_impl;
                       [| apply string_of_uint_digits]; cbv beta; tauto).
      constructor; [left; vm_compute; split; discriminate | constructor]. }
  rewrite utf8_go_ascii; [exact H | | apply Nat.le_refl].
  eapply Forall_impl; [| exact H]. cbv beta. intros c [Hc | ->]; lia.
Qed.

Lemma newlines_app (a b : pystr) :
  newlines (a ++ b) = (newlines a + newlines b)%nat.
Proof. apply count_occ_app. Qed.

Lemma str_of_int_newlines (n : Z) : newlines (str_of_int n) = 0%nat.
Proof.
  unfold newlines. apply (proj1 (count_occ_not_In N.eq_dec _ _)).
  intros Hin. pose proof (str_of_int_chars n) as H.
  rewrite Forall_forall in H. destruct (H _ Hin) as [Hd | Hm]; lia.
Qed.

Lemma newlines_join (parts : list pystr) :
  parts <> [] ->
  newlines (join nl parts)
  = (list_sum (map newlines parts) + (List.length parts - 1))%nat.
Proof.
  induction parts as [|p parts IH]; [congruence | intros _].
  destruct parts as [|q parts].
  - cbn [join map List.length]. unfold list_sum. cbn [fold_right]. lia.
  - change (join nl (p :: q :: parts)) with (p ++ nl ++ join nl (q :: parts)).
    rewrite !newlines_app, IH by discriminate.
    change (newlines nl) with 1%nat. cbn [map List.length].
    unfold list_sum. cbn [fold_right]. lia.
Qed.

(** *** Response headers *)

Section HeaderItems.

Lemma join_snoc (sep : pystr) (vs : list pystr) (v : pystr) :
  vs <> [] -> join sep (vs ++ [v]) = join sep vs ++ sep ++ v.
Proof.
  induction vs as [|a vs IH]; [congruence | intros _].
  destruct vs as [|b vs]; [reflexivity |].
  change (join sep ((a :: b :: vs) ++ [v]))
    with (a ++ sep ++ join sep ((b :: vs) ++ [v])).
  rewrite IH by discriminate.
  change (join sep (a :: b :: vs)) with (a ++ sep ++ join sep (b :: vs)).
  now rewrite <- !app_assoc.
Qed.

Lemma values_of_snoc (h : Headers.t) (k v name : pystr) :
  values_of (h ++ [(k, v)]) name
  = values_of h name ++ (if str_eqb k name then [v] else []).
Proof.
  unfold values_of. rewrite filter_app, map_app. cbn [filter fst].
  now destruct (str_eqb k name).
Qed.

Lemma values_of_absent (h : Headers.t) (name : pystr) :
  ~ In name (map fst h) -> values_of h name = [].
Proof.
  unfold values_of. induction h as [|[k v] h IH]; [reflexivity |].
  cbn [map fst In filter]. intros Hn.
  destruct (str_eqb k name) eqn:E.
  - apply str_eqb_eq in E. tauto.
  - apply IH. tauto.
Qed.

Lemma values_of_present (h : Headers.t) (name : pystr) :
  In name (map fst h) -> values_of h name <> [].
Proof.
  unfold values_of. induction h as [|[k v] h IH]; [contradiction |].
  cbn [map fst In filter]. intros Hin.
  destruct (str_eqb k name) eqn:E; [discriminate |].
  apply IH. destruct Hin as [-> | Hin]; [| exact Hin].
  now rewrite str_eqb_refl in E.
Qed.

Lemma first_occurrences_In (names : list pystr) (n : pystr) :
  In n (first_occurrences names) <-> In n names.
Proof.
  induction names as [|a names IH]; [tauto |].
  cbn [first_occurrences In]. rewrite filter_In, IH, negb_true_iff,
    str_eqb_neq.
  destruct (list_eq_dec N.eq_dec a n); [tauto |]. split; [tauto |].
  intros [H | H]; [tauto | right; split; [exact H | congruence]].
Qed.

Lemma first_occurrences_NoDup (names : list pystr) :
  NoDup (first_occurrences names).
Proof.
  induction names as [|a names IH]; [constructor |].
  cbn [first_occurrences]. constructor.
  - rewrite filter_In, negb_true_iff, str_eqb_neq. tauto.
  - now apply NoDup_filter.
Qed.

Lemma first_occurrences_snoc (names : list pystr) (k : pystr) :
  first_occurrences (names ++ [k])
  = if str_in k names then first_occurrences names
    else first_occurrences names ++ [k].
Proof.
  induction names as [|a names IH]; [reflexivity |].
  change ((a :: names) ++ [k]) with (a :: (names ++ [k])).
  change (first_occurrences (a :: (names ++ [k])))
    with (a :: filter (fun n' => negb (str_eqb n' a))
                 (first_occurrences (names ++ [k]))).
  change (first_occurrences (a :: names))
    with (a :: filter (fun n' => negb (str_eqb n' a))
                 (first_occurrences names)).
  rewrite IH.
  change (str_in k (a :: names)) with (str_eqb k a || str_in k names).
  destruct (str_in k names) eqn:Hin.
  - now rewrite orb_true_r.
  - rewrite orb_false_r, filter_app. cbn [filter].
    destruct (str_eqb k a) eqn:E; cbn [negb].
    + now rewrite app_nil_r.
    + reflexivity.
Qed.

(** [add] on a dict with distinct keys, given by its keys. *)
Lemma add_present (val : pystr -> pystr) (names : list pystr) (k v : pystr) :
  NoDup names -> In k names ->
  Headers.add (map (fun n => (n, val n)) names) k v
  = map (fun n => (n, if str_eqb n k then val n ++ $", " ++ v else val n))
      names.
Proof.
  induction names as [|a names IH]; [contradiction |].
  intros Hnd Hin. inversion Hnd as [|? ? Ha Hnd']; subst.
  cbn [map Headers.add]. destruct (str_eqb a k) eqn:E.
  - f_equal. apply str_eqb_eq in E. subst a.
    apply map_ext_in. intros n Hn.
    destruct (str_eqb n k) eqn:E'; [| reflexivity].
    apply str_eqb_eq in E'. now subst n.
  - f_equal. apply IH; [exact Hnd' |].
    destruct Hin as [-> | Hin]; [| exact Hin].
    now rewrite str_eqb_refl in E.
Qed.

Lemma add_absent (val : pystr -> pystr) (names : list pystr) (k v : pystr) :
  ~ In k names ->
  Headers.add (map (fun n => (n, val n)) names) k v
  = map (fun n => (n, val n)) names ++ [(k, v)].
Proof.
  induction names as [|a names IH]; [reflexivity |].
  cbn [In map Headers.add app]. intros Hn.
  destruct (str_eqb a k) eqn:E.
  - apply str_eqb_eq in E. tauto.
  - rewrite <- app_comm_cons. f_equal. apply IH. tauto.
Qed.

(** What [items] yields: one item for every distinct name, in the order
    in which the names first occur, whose value is the values of all the
    fields of that name joined with a comma and a space. *)
Lemma items_merged (h : Headers.t) :
  Headers.items h
  = map (fun name => (name, join $", " (values_of h name)))
      (first_occurrences (map fst h)).
Proof.
  unfold Headers.items. induction h as [|[k v] h IH] using rev_ind;
    [reflexivity |].
  rewrite fold_left_app. cbn [fold_left fst snd]. rewrite IH.
  rewrite map_app. cbn [map fst]. rewrite first_occurrences_snoc.
  destruct (str_in k (map fst h)) eqn:Hin.
  - apply str_in_In in Hin.
    rewrite add_present;
      [| apply first_occurrences_NoDup | now apply first_occurrences_In].
    apply map_ext_in. intros n Hn. apply -> first_occurrences_In in Hn.
    f_equal. rewrite values_of_snoc.
    destruct (str_eqb n k) eqn:E.
    + apply str_eqb_eq in E. subst n. rewrite str_eqb_refl.
      rewrite join_snoc; [reflexivity | now apply values_of_present].
    + assert (E' : str_eqb k n = false).
      { apply str_eqb_neq. apply str_eqb_neq in E. congruence. }
      rewrite E'. now rewrite app_nil_r.
  - assert (Hn : ~ In k (map fst h)).
    { intros Hc. apply str_in_In in Hc. congruence. }
    rewrite add_absent by now rewrite first_occurrences_In.
    rewrite map_app. cbn [map]. f_equal.
    + apply map_ext_in. intros n Hin'. apply -> first_occurrences_In in Hin'.
      f_equal. rewrite values_of_snoc.
      assert (E' : str_eqb k n = false).
      { apply str_eqb_neq. intros Hkn. apply Hn. now rewrite Hkn. }
      rewrite E'. now rewrite app_nil_r.
    + rewrite values_of_snoc, values_of_absent by exact Hn.
      now rewrite str_eqb_refl.
Qed.

(** [get] reads the value that [items] shows. *)
Lemma items_get (h : Headers.t) (name v default : pystr) :
  In (name, v) (Headers.items h) -> Headers.get h name default = v.
Proof.
  rewrite items_merged, in_map_iff. intros (n & E & Hn).
  injection E as -> <-. apply -> first_occurrences_In in Hn.
  apply values_of_present in Hn. unfold values_of in *. unfold Headers.get.
  destruct (filter (fun kv => str_eqb (fst kv) name) h);
    [now contradiction Hn | reflexivity].
Qed.

Lemma get_absent (h : Headers.t) (name default : pystr) :
  ~ In name (map fst h) -> Headers.get h name default = default.
Proof.
  intros Hn. apply values_of_absent in Hn. unfold values_of in Hn.
  unfold Headers.get.
  destruct (filter (fun kv => str_eqb (fst kv) name) h);
    [reflexivity | discriminate].
Qed.

Lemma add_fresh (d : dict) (k v : pystr) :
  ~ In k (map fst d) -> Headers.add d k v = d ++ [(k, v)].
Proof.
  induction d as [|[k' v'] d IH]; [reflexivity |].
  cbn [map fst In Headers.add]. intros Hn.
  destruct (str_eqb k' k) eqn:E.
  - apply str_eqb_eq in E. tauto.
  - rewrite <- app_comm_cons. f_equal. apply IH. tauto.
Qed.

(** With no name repeated, [items] is the header fields as received. *)
Lemma items_distinct (h : Headers.t) :
  NoDup (map fst h) -> Headers.items h = h.
Proof.
  unfold Headers.items. induction h as [|[k v] h IH] using rev_ind;
    [reflexivity |].
  rewrite map_app. cbn [map fst]. intros Hnd.
  rewrite fold_left_app. cbn [fold_left fst snd].
  apply NoDup_remove in Hnd. rewrite !app_nil_r in Hnd.
  destruct Hnd as [Hnd Hk]. rewrite IH by exact Hnd.
  now apply add_fresh.
Qed.

End HeaderItems.

(** *** Executing against a network *)

Section Exec.
Variable World : Type.
Variable opening closing : World -> ClientConfig -> outcome unit * World.
Variable send :
  World -> ClientConfig -> RequestArgs -> outcome Response.t * World.
Variable unicode_upper : N -> pystr.
Variable float_str : float -> pystr.

(** Executing a sequence: the first part runs, and if it returns, the
    second part goes on in the world and with the log it left. *)
Lemma exec_from_bind (A B : Type) (m : io A) (f : A -> io B) w sofar :
  exec_from opening closing send (bind m f) w sofar
  = match result (exec_from opening closing send m w sofar) with
    | Returns a =>
        exec_from opening closing send (f a)
          (world (exec_from opening closing send m w sofar))
          (log (exec_from opening closing send m w sofar))
    | Raises e =>
        {| result := Raises e;
           world := world (exec_from opening closing send m w sofar);
           log := log (exec_from opening closing send m w sofar) |}
    end.
Proof.
  revert w sofar.
  induction m as [o | cfg req k IH | cfg k IH | cfg k IH]; intros w sofar.
  - destruct o; reflexivity.
  - cbn [bind exec_from]. destruct (send w cfg req) as [o w']. apply IH.
  - cbn [bind exec_from]. destruct (opening w cfg) as [o w']. apply IH.
  - cbn [bind exec_from]. destruct (closing w cfg) as [o w']. apply IH.
Qed.

Lemma exec_from_leaving (A B : Type) (m : io A) (f : outcome A -> io B)
    w sofar :
  exec_from opening closing send (leaving m f) w sofar
  = exec_from opening closing send
      (f (result (exec_from opening closing send m w sofar)))
      (world (exec_from opening closing send m w sofar))
      (log (exec_from opening closing send m w sofar)).
Proof.
  revert w sofar.
  induction m as [o | cfg req k IH | cfg k IH | cfg k IH]; intros w sofar.
  - reflexivity.
  - cbn [leaving exec_from]. destruct (send w cfg req) as [o w']. apply IH.
  - cbn [leaving exec_from]. destruct (opening w cfg) as [o w']. apply IH.
  - cbn [leaving exec_from]. destruct (closing w cfg) as [o w']. apply IH.
Qed.

(** A client that cannot be set up: the body does not run, nothing is
    sent, and the exception is how the statement ends. *)
Lemma exec_async_with_client_fails (A : Type) cfg (body : ClientConfig -> io A)
    w sofar e w1 :
  opening w cfg = (Raises e, w1) ->
  exec_from opening closing send (async_with_client cfg body) w sofar
  = {| result := Raises e; world := w1; log := sofar |}.
Proof.
  intros Hopen. unfold async_with_client. cbn [exec_from].
  now rewrite Hopen.
Qed.

(** A client that is set up: the body runs, then the client is closed. *)
Lemma exec_async_with_client (A : Type) cfg (body : ClientConfig -> io A)
    w sofar w1 closed w3 :
  opening w cfg = (Returns tt, w1) ->
  closing (world (exec_from opening closing send (body cfg) w1 sofar)) cfg
  = (closed, w3) ->
  exec_from opening closing send (async_with_client cfg body) w sofar
  = {| result :=
         match closed with
         | Raises e => Raises e
         | Returns _ =>
             result (exec_from opening closing send (body cfg) w1 sofar)
         end;
       world := w3;
       log := log (exec_from opening closing send (body cfg) w1 sofar) |}.
Proof.
  intros Hopen Hclose. unfold async_with_client. cbn [exec_from].
  rewrite Hopen, exec_from_leaving. cbn [exec_from]. rewrite Hclose.
  destruct closed as [[] | e]; reflexivity.
Qed.

(** [make_request] with a client that is set up: one request goes out,
    the answer decides the text, and the client is closed. *)
Lemma exec_make_request url method headers body timeout w w1 o w2 closed w3 :
  opening w (client_of timeout) = (Returns tt, w1) ->
  send w1 (client_of timeout)
    (outgoing unicode_upper url method headers body) = (o, w2) ->
  closing w2 (client_of timeout) = (closed, w3) ->
  exec opening closing send
    (make_request unicode_upper float_str url method headers body timeout) w
  = {| result :=
         match closed with
         | Raises e => Raises e
         | Returns _ =>
             match o with
             | Returns response => Returns (format_response url response)
             | Raises e =>
                 match dispatch e (make_request_clauses float_str url timeout)
                 with
                 | Pure r => r
                 | _ => Raises e
                 end
             end
         end;
       world := w3;
       log := [{| sent_cfg := client_of timeout;
                  sent_req := outgoing unicode_upper url method headers body;
                  answer := o |}] |}.
Proof.
  intros Hopen Hsend Hclose. unfold client_of, outgoing in *.
  unfold exec, make_request.
  match goal with
  | |- exec_from _ _ _ (async_with_client ?cfg ?blk) _ _ = _ =>
      assert (Hbody :
        exec_from opening closing send (blk cfg) w1 []
        = {| result :=
               match o with
               | Returns response => Returns (format_response url response)
               | Raises e =>
                   match dispatch e
                           (make_request_clauses float_str url timeout)
                   with
                   | Pure r => r
                   | _ => Raises e
                   end
               end;
             world := w2;
             log := [{| sent_cfg := cfg;
                        sent_req :=
                          {| req_method := method_upper unicode_upper method;
                             req_url := url;
                             req_headers := Some (dict_or_empty headers);
                             req_content :=
                               if truthy_str body
                                  && str_in (method_upper unicode_upper method)
                                       [$"POST"; $"PUT"; $"PATCH"]
                               then body else None |};
                        answer := o |}] |})
  end.
  { unfold client_request. cbn [try_except bind exec_from]. rewrite Hsend.
    destruct o as [response | e]; [reflexivity |].
    destruct e; reflexivity. }
  erewrite exec_async_with_client; [| exact Hopen | rewrite Hbody; exact Hclose].
  rewrite Hbody. reflexivity.
Qed.

(** [make_request] with a client that cannot be set up. *)
Lemma exec_make_request_fails url method headers body timeout w e w1 :
  opening w (client_of timeout) = (Raises e, w1) ->
  exec opening closing send
    (make_request unicode_upper float_str url method headers body timeout) w
  = {| result := Raises e; world := w1; log := [] |}.
Proof.
  intros Hopen. unfold exec, make_request.
  now apply exec_async_with_client_fails.
Qed.

(** One probe: one request goes out, and a label comes back whatever
    the answer is. *)
Lemma exec_probe client port w sofar :
  exists ex label w',
    exec_from opening closing send
      (try_except
         (response <-
            client_get client
              ($"http://localhost:" ++ str_of_int port ++ $"/") ;;
          ret ($"✅ **OPEN** - Status "
               ++ str_of_int (Response.status_code response)))
         check_ports_clauses) w sofar
    = {| result := Returns label; world := w'; log := sofar ++ [ex] |}
    /\ sent_cfg ex = client
    /\ sent_req ex = probe port
    /\ spec_port_label (answer ex) label.
Proof.
  unfold client_get, client_request. cbn [bind try_except exec_from].
  fold (probe port).
  destruct (send w client (probe port)) as [o w'].
  destruct o as [r | [msg | cls msg | msg r | name msg]]; cbn;
    do 3 eexists; (split; [reflexivity |]); cbn;
    repeat split; now constructor.
Qed.

Lemma exec_check_ports_loop client ports :
  forall results w sofar,
  exists exs lines w',
    exec_from opening closing send (check_ports_loop client ports results)
      w sofar
    = {| result := Returns (results ++ lines); world := w';
         log := sofar ++ exs |}
    /\ scanned ports exs lines
    /\ Forall (fun ex => sent_cfg ex = client) exs.
Proof.
  induction ports as [|port ports IH]; intros results w sofar.
  - exists [], [], w. cbn. rewrite !app_nil_r.
    repeat split; constructor.
  - cbn [check_ports_loop]. rewrite exec_from_bind.
    destruct (exec_probe client port w sofar)
      as (ex & label & w1 & -> & Hcfg & Hreq & Hlabel).
    cbn [result world log].
    destruct (IH (results
                  ++ [$"- **Port " ++ str_of_int port ++ $":** " ++ label])
                w1 (sofar ++ [ex]))
      as (exs & lines & w' & -> & Hscan & Hall).
    exists (ex :: exs), (bullet port label :: lines), w'.
    rewrite <- !app_assoc. repeat split.
    + now constructor.
    + now constructor.
Qed.

(** The whole scan with a client that is set up: nine probes, then the
    client is closed, and the report is returned unless closing raised. *)
Lemma exec_check_ports w w1 :
  opening w {| cfg_timeout := 2%float; cfg_follow_redirects := false |}
  = (Returns tt, w1) ->
  exists exs lines w2,
    scanned common_ports exs lines
    /\ Forall
         (fun ex =>
            sent_cfg ex
            = {| cfg_timeout := 2%float; cfg_follow_redirects := false |})
         exs
    /\ forall closed w3,
         closing w2 {| cfg_timeout := 2%float; cfg_follow_redirects := false |}
         = (closed, w3) ->
         exec opening closing send check_ports w
         = {| result :=
                match closed with
                | Raises e => Raises e
                | Returns _ =>
                    Returns
                      (join nl (($"## Local Port Scan Results" ++ nl) :: lines))
                end;
              world := w3; log := exs |}.
Proof.
  intros Hopen.
  destruct (exec_check_ports_loop
              {| cfg_timeout := 2%float; cfg_follow_redirects := false |}
              common_ports [$"## Local Port Scan Results" ++ nl] w1 [])
    as (exs & lines & w2 & Hloop & Hscan & Hall).
  exists exs, lines, w2. split; [exact Hscan | split; [exact Hall |]].
  intros closed w3 Hclose.
  unfold exec, check_ports. cbv zeta. rewrite exec_from_bind.
  erewrite exec_async_with_client;
    [| exact Hopen | rewrite Hloop; exact Hclose].
  rewrite Hloop. cbn [result world log app].
  destruct closed as [[] | e]; reflexivity.
Qed.

(** The scan with a client that cannot be set up. *)
Lemma exec_check_ports_fails w e w1 :
  opening w {| cfg_timeout := 2%float; cfg_follow_redirects := false |}
  = (Raises e, w1) ->
  exec opening closing send check_ports w
  = {| result := Raises e; world := w1; log := [] |}.
Proof.
  intros Hopen. unfold exec, check_ports. cbv zeta. rewrite exec_from_bind.
  erewrite exec_async_with_client_fails by exact Hopen. reflexivity.
Qed.

End Exec.

(** *** One request, one answer *)

Section OneRequest.
Variable World : Type.
Variable send :
  World -> ClientConfig -> RequestArgs -> outcome Response.t * World.
Variable unicode_upper : N -> pystr.
Variable float_str : float -> pystr.

(** [make_request] sends exactly one request, and what it returns is
    decided by the answer alone. *)
Lemma run_make_request url method headers body timeout w o w' :
  send w (client_of timeout)
    (outgoing unicode_upper url method headers body) = (o, w') ->
  run send
    (make_request unicode_upper float_str url method headers body timeout) w
  = {| result :=
         match o with
         | Returns response => Returns (format_response url response)
         | Raises e =>
             match dispatch e (make_request_clauses float_str url timeout)
             with
             | Pure r => r
             | _ => Raises e
             end
         end;
       world := w';
       log := [{| sent_cfg := client_of timeout;
                  sent_req := outgoing unicode_upper url method headers body;
                  answer := o |}] |}.
Proof.
  intros Hsend.
  exact (@exec_make_request World healthy healthy send unicode_upper
           float_str url method headers body timeout w w o w' (Returns tt) w'
           eq_refl Hsend eq_refl).
Qed.

(** The same, with the send step left implicit. *)
Lemma make_request_exchange url method headers body timeout w :
  exists o w',
    send w (client_of timeout)
      (outgoing unicode_upper url method headers body) = (o, w').
Proof.
  destruct (send w (client_of timeout)
              (outgoing unicode_upper url method headers body)) as [o w'].
  now exists o, w'.
Qed.

Lemma format_response_nonempty url response :
  format_response url response <> [].
Proof.
  unfold format_response. intros H.
  apply app_eq_nil in H. destruct H as [_ H]. discriminate H.
Qed.

Lemma fold_left_append (A : Type) (f : A -> pystr) (l : list A)
    (init : pystr) :
  fold_left (fun acc a => acc ++ f a) l init = init ++ List.concat (map f l).
Proof.
  revert init. induction l as [|a l IH]; intros init; simpl.
  - now rewrite app_nil_r.
  - rewrite IH. now rewrite <- app_assoc.
Qed.

Ltac run_request url method headers body timeout w o w' H :=
  destruct (make_request_exchange url method headers body timeout w)
    as (o & w' & H);
  rewrite (@run_make_request url method headers body timeout w o w' H);
  unfold outgoing, client_of in *; cbn [result world log].

(** Every clause of [make_request] returns, so the call does. *)
Lemma make_request_always_returns_text_aux
    url method headers body timeout w :
  exists s,
    result
      (run send
         (make_request unicode_upper float_str url method headers body
            timeout) w) = Returns s.
Proof.
  run_request url method headers body timeout w o w' Hsend.
  destruct o as [response | [msg | cls msg | msg response | name msg]];
    cbn; eexists; reflexivity.
Qed.

(** C3. For every method [m] and every non-empty body [b], the request
    that goes out carries [b] as its content if and only if the
    upper-cased method is one of POST, PUT and PATCH, and carries no
    content at all otherwise; the method sent is the upper-cased one. In
    particular a body given with GET is dropped and the call still
    returns a string. *)
Theorem body_inclusion_law url method headers b timeout w :
  b <> [] ->
  (let r :=
     run send
       (make_request unicode_upper float_str url method headers (Some b)
          timeout) w in
   exists ex,
     log r = [ex] /\
     req_method (sent_req ex) = method_upper unicode_upper method /\
     (req_content (sent_req ex) = Some b <->
      In (method_upper unicode_upper method) [$"POST"; $"PUT"; $"PATCH"]) /\
     (~ In (method_upper unicode_upper method) [$"POST"; $"PUT"; $"PATCH"]
      -> req_content (sent_req ex) = None)) /\
  (let g :=
     run send
       (make_request unicode_upper float_str url $"GET" headers (Some b)
          timeout) w in
   exists ex s,
     log g = [ex] /\ req_content (sent_req ex) = None /\
     req_method (sent_req ex) = $"GET" /\ result g = Returns s).
Proof.
  intros Hb. split.
  - intros r. subst r.
    run_request url method headers (Some b) timeout w o w' Hsend.
    eexists. split; [reflexivity |]. cbn [sent_req req_method req_content].
    split; [reflexivity |].
    assert (Ht : truthy_str (Some b) = true)
      by (destruct b; [contradiction | reflexivity]).
    rewrite Ht. cbn [andb].
    destruct (str_in (method_upper unicode_upper method)
                [$"POST"; $"PUT"; $"PATCH"]) eqn:Hin.
    + apply str_in_In in Hin. split; [tauto | contradiction].
    + assert (Hn : ~ In (method_upper unicode_upper method)
                      [$"POST"; $"PUT"; $"PATCH"]).
      { intros Hc. apply str_in_In in Hc. congruence. }
      split; [split; [discriminate | contradiction] | reflexivity].
  - intros g.
    destruct (make_request_always_returns_text_aux url $"GET" headers
                (Some b) timeout w) as (s & Hs).
    subst g. revert Hs.
    run_request url $"GET" headers (Some b) timeout w o w' Hsend.
    intros Hs. eexists. exists s.
    split; [reflexivity |]. cbn [sent_req req_method req_content].
    replace (str_in (method_upper unicode_upper $"GET")
               [$"POST"; $"PUT"; $"PATCH"]) with false by reflexivity.
    rewrite andb_false_r. repeat split; exact Hs.
Qed.

(** C10. An empty-string body is never attached to the request, not
    even with POST, PUT or PATCH: the request goes out without content,
    and the whole call is the call with the body absent. *)
Theorem empty_body_is_absent url method headers timeout w :
  make_request unicode_upper float_str url method headers (Some $"") timeout
  = make_request unicode_upper float_str url method headers None timeout
  /\ (exists ex,
        log (run send
               (make_request unicode_upper float_str url method headers
                  (Some $"") timeout) w) = [ex]
        /\ req_content (sent_req ex) = None)
  /\ (exists ex,
        log (run send
               (make_request unicode_upper float_str url $"POST" headers
                  (Some $"") timeout) w) = [ex]
        /\ req_method (sent_req ex) = $"POST"
        /\ req_content (sent_req ex) = None).
Proof.
  split; [reflexivity | split].
  - run_request url method headers (Some $"") timeout w o w' Hsend.
    eexists. split; reflexivity.
  - run_request url $"POST" headers (Some $"") timeout w o w' Hsend.
    eexists. repeat split.
Qed.

(** The URL [fetch_localhost] builds. *)
Lemma fetch_localhost_unfold params :
  fetch_localhost unicode_upper float_str params
  = make_request unicode_upper float_str
      ($"http://localhost:" ++ str_of_int (FetchLocalhostInput.port params)
       ++ (if startswith (FetchLocalhostInput.path params) $"/"
           then FetchLocalhostInput.path params
           else $"/" ++ FetchLocalhostInput.path params))
      (FetchLocalhostInput.method params)
      (FetchLocalhostInput.headers params)
      (FetchLocalhostInput.body params)
      DEFAULT_TIMEOUT.
Proof. reflexivity. Qed.

(** C6. For every port and path, [fetch_localhost] sends its request to
    [http://localhost:<port><normalized path>], where the normalized
    path is the path itself if that starts with a slash and the path
    with a slash put in front otherwise. The normalized path starts
    with a slash, so normalizing it again changes nothing; and port
    3000 with path [api/users] goes to
    [http://localhost:3000/api/users]. *)
Theorem fetch_localhost_target params w :
  let port := FetchLocalhostInput.port params in
  let path := FetchLocalhostInput.path params in
  let normalized := if startswith path $"/" then path else $"/" ++ path in
  (exists ex,
     log (run send (fetch_localhost unicode_upper float_str params) w)
     = [ex]
     /\ req_url (sent_req ex)
        = $"http://localhost:" ++ str_of_int port ++ normalized)
  /\ startswith normalized $"/" = true
  /\ (exists rest, normalized = $"/" ++ rest)
  /\ (if startswith normalized $"/" then normalized
      else $"/" ++ normalized) = normalized
  /\ (exists ex,
        log (run send
               (fetch_localhost unicode_upper float_str
                  {| FetchLocalhostInput.port := 3000;
                     FetchLocalhostInput.path := $"api/users";
                     FetchLocalhostInput.method :=
                       FetchLocalhostInput.method params;
                     FetchLocalhostInput.headers :=
                       FetchLocalhostInput.headers params;
                     FetchLocalhostInput.body :=
                       FetchLocalhostInput.body params |}) w) = [ex]
        /\ req_url (sent_req ex) = $"http://localhost:3000/api/users").
Proof.
  intros port path normalized.
  assert (Hn : startswith normalized $"/" = true).
  { subst normalized. destruct (startswith path $"/") eqn:E;
      [exact E | reflexivity]. }
  split; [| split; [exact Hn | split; [now apply startswith_slash | split;
                                       [now rewrite Hn |]]]].
  - rewrite fetch_localhost_unfold.
    match goal with
    | |- context [make_request _ _ ?u ?m ?h ?b ?t] =>
        run_request u m h b t w o w' Hsend
    end.
    eexists. split; reflexivity.
  - rewrite fetch_localhost_unfold.
    cbn [FetchLocalhostInput.port FetchLocalhostInput.path
         FetchLocalhostInput.method FetchLocalhostInput.headers
         FetchLocalhostInput.body].
    match goal with
    | |- context [make_request _ _ ?u ?m ?h ?b ?t] =>
        run_request u m h b t w o w' Hsend
    end.
    eexists. split; reflexivity.
Qed.

(** C9. Every call of [fetch_localhost] runs with the default timeout
    of 30 seconds: its input has no timeout field, it delegates to
    [make_request] with the default, and the client that sends the
    request is configured with 30. *)
Theorem fetch_localhost_timeout_fixed params w :
  DEFAULT_TIMEOUT = 30%float
  /\ (exists url,
        fetch_localhost unicode_upper float_str params
        = make_request unicode_upper float_str url
            (FetchLocalhostInput.method params)
            (FetchLocalhostInput.headers params)
            (FetchLocalhostInput.body params)
            DEFAULT_TIMEOUT)
  /\ (exists ex,
        log (run send (fetch_localhost unicode_upper float_str params) w)
        = [ex]
        /\ cfg_timeout (sent_cfg ex) = 30%float).
Proof.
  split; [reflexivity | split].
  - eexists. apply fetch_localhost_unfold.
  - rewrite fetch_localhost_unfold.
    match goal with
    | |- context [make_request _ _ ?u ?m ?h ?b ?t] =>
        run_request u m h b t w o w' Hsend
    end.
    eexists. split; reflexivity.
Qed.

(** The report of a response, section by section. *)
Lemma format_response_sections url response :
  format_response url response
  = ($"## Response from " ++ url ++ nl ++ nl)
    ++ ($"**Status:** " ++ str_of_int (Response.status_code response)
        ++ $" " ++ Response.reason_phrase response ++ nl)
    ++ ($"**Content-Type:** "
        ++ Headers.get (Response.headers response) $"content-type"
             $"unknown" ++ nl)
    ++ ($"**Content-Length:** "
        ++ str_of_int (len (Response.content response)) ++ $" bytes"
        ++ nl ++ nl)
    ++ ($"### Headers" ++ nl
        ++ List.concat
             (map header_line (Headers.items (Response.headers response))))
    ++ (nl ++ $"### Body" ++ nl ++ nl ++ $"```" ++ nl
        ++ (if len (Response.text response) >? MAX_CONTENT_LENGTH
            then slice_to MAX_CONTENT_LENGTH (Response.text response)
                 ++ nl ++ nl ++ $"... [TRUNCATED - Response exceeded "
                 ++ str_of_int MAX_CONTENT_LENGTH ++ $" bytes]"
            else Response.text response)
        ++ nl ++ $"```").
Proof.
  unfold format_response.
  rewrite (fold_left_append header_line). cbv zeta.
  now rewrite <- !app_assoc.
Qed.

(** When the answer is a response, the report of it is returned. *)
Lemma make_request_success url method headers body timeout w ex response :
  let r :=
    run send
      (make_request unicode_upper float_str url method headers body timeout)
      w in
  log r = [ex] -> answer ex = Returns response ->
  result r = Returns (format_response url response).
Proof.
  intros r. subst r.
  run_request url method headers body timeout w o w' Hsend.
  intros Hlog Hans. injection Hlog as <-. cbn [answer] in Hans.
  now subst o.
Qed.

(** C2. When the decoded text of a successful response is longer than
    500,000 characters, the body shown is exactly its first 500,000
    characters followed by the truncation notice, which names the
    500000 limit; the Content-Length line still gives the length in
    bytes of the raw content of the response, not that of the cut
    text. *)
Theorem truncation_law url method headers body timeout w ex response :
  let r :=
    run send
      (make_request unicode_upper float_str url method headers body timeout)
      w in
  log r = [ex] -> answer ex = Returns response ->
  len (Response.text response) > 500000 ->
  let notice :=
    nl ++ nl ++ $"... [TRUNCATED - Response exceeded 500000 bytes]" in
  let shown := slice_to 500000 (Response.text response) ++ notice in
  result r
  = Returns
      (($"## Response from " ++ url ++ nl ++ nl)
       ++ ($"**Status:** " ++ str_of_int (Response.status_code response)
           ++ $" " ++ Response.reason_phrase response ++ nl)
       ++ ($"**Content-Type:** "
           ++ Headers.get (Response.headers response) $"content-type"
                $"unknown" ++ nl)
       ++ ($"**Content-Length:** "
           ++ str_of_int (len (Response.content response)) ++ $" bytes"
           ++ nl ++ nl)
       ++ ($"### Headers" ++ nl
           ++ List.concat
                (map header_line
                   (Headers.items (Response.headers response))))
       ++ (nl ++ $"### Body" ++ nl ++ nl ++ $"```" ++ nl
           ++ shown ++ nl ++ $"```"))
  /\ len (slice_to 500000 (Response.text response)) = 500000
  /\ len shown = 500000 + len notice.
Proof.
  intros r Hlog Hans Hlong notice shown.
  assert (Hcut : len (slice_to 500000 (Response.text response)) = 500000).
  { unfold len, slice_to in *. rewrite firstn_length_le; lia. }
  split; [| split; [exact Hcut |]].
  - subst r. rewrite (make_request_success _ _ _ _ _ _ Hlog Hans).
    rewrite format_response_sections.
    replace (len (Response.text response) >? MAX_CONTENT_LENGTH) with true
      by (symmetry; apply Z.gtb_lt; unfold MAX_CONTENT_LENGTH; lia).
    subst shown notice.
    change (str_of_int MAX_CONTENT_LENGTH) with $"500000".
    change MAX_CONTENT_LENGTH with 500000.
    change ($"... [TRUNCATED - Response exceeded " ++ $"500000"
            ++ $" bytes]")
      with $"... [TRUNCATED - Response exceeded 500000 bytes]".
    now rewrite <- !app_assoc.
  - subst shown. unfold len in *. rewrite length_app. lia.
Qed.

(** C7, as the code has it. For every successful response the report
    consists, in this order, of the line naming the source URL, the
    status line, the content type, the content length, the header list
    and the fenced body. The header list has one [- key: value] line for
    every item of [response.headers.items()], in the order of the
    items: that is one line for every distinct header name, in the
    order in which the names first occur in the response, and a header
    that occurs several times is shown once, its values joined with a
    comma and a space in the order they occur. *)
Theorem report_sections url method headers body timeout w ex response :
  let r :=
    run send
      (make_request unicode_upper float_str url method headers body timeout)
      w in
  log r = [ex] -> answer ex = Returns response ->
  let h := Response.headers response in
  let names := first_occurrences (map fst h) in
  result r
  = Returns
      (($"## Response from " ++ url ++ nl ++ nl)
       ++ ($"**Status:** " ++ str_of_int (Response.status_code response)
           ++ $" " ++ Response.reason_phrase response ++ nl)
       ++ ($"**Content-Type:** " ++ Headers.get h $"content-type" $"unknown"
           ++ nl)
       ++ ($"**Content-Length:** "
           ++ str_of_int (len (Response.content response)) ++ $" bytes"
           ++ nl ++ nl)
       ++ ($"### Headers" ++ nl
           ++ List.concat
                (map (fun name =>
                        $"- " ++ name ++ $": "
                        ++ join $", " (values_of h name) ++ nl)
                   names))
       ++ (nl ++ $"### Body" ++ nl ++ nl ++ $"```" ++ nl
           ++ (if len (Response.text response) >? MAX_CONTENT_LENGTH
               then slice_to MAX_CONTENT_LENGTH (Response.text response)
                    ++ nl ++ nl ++ $"... [TRUNCATED - Response exceeded "
                    ++ str_of_int MAX_CONTENT_LENGTH ++ $" bytes]"
               else Response.text response)
           ++ nl ++ $"```"))
  /\ Headers.items h
     = map (fun name => (name, join $", " (values_of h name))) names
  /\ NoDup names
  /\ (forall name, In name names <-> In name (map fst h)).
Proof.
  intros r Hlog Hans h names.
  split; [| split; [apply items_merged | split]].
  - subst r. rewrite (make_request_success _ _ _ _ _ _ Hlog Hans).
    rewrite format_response_sections. fold h.
    rewrite items_merged, map_map. reflexivity.
  - apply first_occurrences_NoDup.
  - intros name. apply first_occurrences_In.
Qed.


(** *** Further properties of a single request *)

Lemma format_response_layout url response :
  format_response url response
  = report_layout url (Response.status_code response)
      (Response.reason_phrase response)
      (Headers.get (Response.headers response) $"content-type" $"unknown")
      (len (Response.content response))
      (List.concat
         (map header_line (Headers.items (Response.headers response))))
      (if len (Response.text response) >? MAX_CONTENT_LENGTH
       then slice_to MAX_CONTENT_LENGTH (Response.text response)
            ++ nl ++ nl ++ $"... [TRUNCATED - Response exceeded "
            ++ str_of_int MAX_CONTENT_LENGTH ++ $" bytes]"
       else Response.text response).
Proof.
  rewrite format_response_sections. unfold report_layout.
  now rewrite <- !app_assoc.
Qed.

(** X2. A response whose text has at most 500,000 characters, the limit
    itself included, is shown whole: the fenced body of the report is the
    text, with nothing cut and no notice added. *)
Theorem short_body_not_truncated
    url method headers body timeout w ex response :
  let r :=
    run send
      (make_request unicode_upper float_str url method headers body timeout)
      w in
  log r = [ex] -> answer ex = Returns response ->
  len (Response.text response) <= 500000 ->
  result r
  = Returns
      (report_layout url (Response.status_code response)
         (Response.reason_phrase response)
         (Headers.get (Response.headers response) $"content-type" $"unknown")
         (len (Response.content response))
         (List.concat
            (map header_line (Headers.items (Response.headers response))))
         (Response.text response)).
Proof.
  intros r Hlog Hans Hshort. subst r.
  rewrite (make_request_success _ _ _ _ _ _ Hlog Hans).
  rewrite format_response_layout.
  replace (len (Response.text response) >? MAX_CONTENT_LENGTH) with false;
    [reflexivity |].
  symmetry. rewrite Z.gtb_ltb. apply Z.ltb_ge.
  unfold MAX_CONTENT_LENGTH. lia.
Qed.

(** X3. Whatever the response, the body shown between the fences is at
    most 500,050 characters long (the limit plus the 50 characters of the
    notice), and its first 500,000 characters are the first 500,000
    characters of the response text. *)
Theorem shown_body_bounded url method headers body timeout w ex response :
  let r :=
    run send
      (make_request unicode_upper float_str url method headers body timeout)
      w in
  log r = [ex] -> answer ex = Returns response ->
  exists shown,
    result r
    = Returns
        (report_layout url (Response.status_code response)
           (Response.reason_phrase response)
           (Headers.get (Response.headers response) $"content-type"
              $"unknown")
           (len (Response.content response))
           (List.concat
              (map header_line (Headers.items (Response.headers response))))
           shown)
    /\ len shown <= 500050
    /\ slice_to 500000 shown = slice_to 500000 (Response.text response).
Proof.
  intros r Hlog Hans. subst r.
  rewrite (make_request_success _ _ _ _ _ _ Hlog Hans).
  rewrite format_response_layout. eexists. split; [reflexivity |].
  change MAX_CONTENT_LENGTH with 500000.
  destruct (Z.gtb_spec (len (Response.text response)) 500000) as [Hgt | Hle].
  - assert (Hcut : List.length (slice_to 500000 (Response.text response))
                   = Z.to_nat 500000).
    { unfold len, slice_to in *. rewrite firstn_length_le; lia. }
    split.
    + unfold len. rewrite length_app, Hcut.
      change (List.length
                (nl ++ nl ++ $"... [TRUNCATED - Response exceeded "
                 ++ str_of_int 500000 ++ $" bytes]")) with 50%nat.
      lia.
    + unfold slice_to in *. rewrite firstn_app, Hcut, Nat.sub_diag.
      cbn [firstn]. rewrite app_nil_r, firstn_firstn, Nat.min_id.
      reflexivity.
  - split; [lia | reflexivity].
Qed.

(** X4. When the response has no [content-type] header, the report says
    [**Content-Type:** unknown]. *)
Theorem content_type_unknown_when_absent
    url method headers body timeout w ex response :
  let r :=
    run send
      (make_request unicode_upper float_str url method headers body timeout)
      w in
  log r = [ex] -> answer ex = Returns response ->
  ~ In $"content-type" (map fst (Response.headers response)) ->
  exists shown,
    result r
    = Returns
        (report_layout url (Response.status_code response)
           (Response.reason_phrase response)
           $"unknown"
           (len (Response.content response))
           (List.concat
              (map header_line (Headers.items (Response.headers response))))
           shown).
Proof.
  intros r Hlog Hans Hno. subst r.
  rewrite (make_request_success _ _ _ _ _ _ Hlog Hans).
  rewrite format_response_layout, (@get_absent _ _ $"unknown" Hno).
  eexists. reflexivity.
Qed.

(** X5. The two places of the report that show the content type agree:
    when the header list has the line [- content-type: v], the
    Content-Type line shows the same [v]. *)
Theorem content_type_line_matches_header_list
    url method headers body timeout w ex response v :
  let r :=
    run send
      (make_request unicode_upper float_str url method headers body timeout)
      w in
  log r = [ex] -> answer ex = Returns response ->
  In ($"content-type", v) (Headers.items (Response.headers response)) ->
  exists shown,
    result r
    = Returns
        (report_layout url (Response.status_code response)
           (Response.reason_phrase response)
           v
           (len (Response.content response))
           (List.concat
              (map header_line (Headers.items (Response.headers response))))
           shown).
Proof.
  intros r Hlog Hans Hin. subst r.
  rewrite (make_request_success _ _ _ _ _ _ Hlog Hans).
  rewrite format_response_layout, (@items_get _ _ _ $"unknown" Hin).
  eexists. reflexivity.
Qed.

(** X6. When no header name occurs twice in the response, the header
    list of the report is the headers of the response as received: one
    [- key: value] line for each, in response order. *)
Theorem distinct_headers_listed_as_received
    url method headers body timeout w ex response :
  let r :=
    run send
      (make_request unicode_upper float_str url method headers body timeout)
      w in
  log r = [ex] -> answer ex = Returns response ->
  NoDup (map fst (Response.headers response)) ->
  exists shown,
    result r
    = Returns
        (report_layout url (Response.status_code response)
           (Response.reason_phrase response)
           (Headers.get (Response.headers response) $"content-type"
              $"unknown")
           (len (Response.content response))
           (spec_header_lines response)
           shown).
Proof.
  intros r Hlog Hans Hnd. subst r.
  rewrite (make_request_success _ _ _ _ _ _ Hlog Hans).
  rewrite format_response_layout, (@items_distinct _ Hnd).
  eexists. reflexivity.
Qed.

(** X7. The case of the method does not matter: for a method of ASCII
    letters, calling with the method or with the method in upper case is
    the same computation. *)
Theorem method_case_insensitive url method headers body timeout :
  ascii_only method ->
  make_request unicode_upper float_str url
    (method_upper unicode_upper method) headers body timeout
  = make_request unicode_upper float_str url method headers body timeout.
Proof.
  intros Hascii. unfold make_request, method_upper.
  now rewrite (upper_idempotent unicode_upper Hascii).
Qed.

(** X8. The caller's headers reach the request unchanged, and without
    headers an empty dict is passed, never [None]; calling without
    headers and calling with an empty dict are the same computation. *)
Theorem headers_passed_through url method headers body timeout w :
  make_request unicode_upper float_str url method None body timeout
  = make_request unicode_upper float_str url method (Some []) body timeout
  /\ exists ex,
       log (run send
              (make_request unicode_upper float_str url method headers body
                 timeout) w) = [ex]
       /\ req_headers (sent_req ex)
          = Some (match headers with Some d => d | None => [] end).
Proof.
  split; [reflexivity |].
  run_request url method headers body timeout w o w' Hsend.
  eexists. split; [reflexivity |]. cbn [sent_req req_headers].
  destruct headers as [[| kv d] |]; reflexivity.
Qed.

(** X9. The first characters of the returned text tell what happened: the
    text starts with [## Response from ] exactly when a response came
    back, and with [**] exactly when the request raised. *)
Theorem report_prefix_tells_outcome url method headers body timeout w :
  let r :=
    run send
      (make_request unicode_upper float_str url method headers body timeout)
      w in
  exists s ex,
    result r = Returns s /\ log r = [ex]
    /\ match answer ex with
       | Returns _ =>
           startswith s $"## Response from " = true
           /\ startswith s $"**" = false
       | Raises _ =>
           startswith s $"## Response from " = false
           /\ startswith s $"**" = true
       end.
Proof.
  intros r. subst r.
  run_request url method headers body timeout w o w' Hsend.
  destruct o as [response | [msg | cls msg | msg response | name msg]];
    cbn; eexists; eexists;
    (split; [reflexivity | split; [reflexivity |]]); cbn [answer];
    try (split; reflexivity).
  rewrite format_response_layout. split; reflexivity.
Qed.

End OneRequest.

(** *** The port scan *)

Section Scan.
Variable World : Type.
Variable send :
  World -> ClientConfig -> RequestArgs -> outcome Response.t * World.

Lemma scanned_labels ports exs lines :
  scanned ports exs lines ->
  exists labels,
    List.length labels = List.length ports
    /\ lines = map (fun pl => bullet (fst pl) (snd pl)) (combine ports labels)
    /\ map sent_req exs = map probe ports.
Proof.
  induction 1 as [| port ex label ports exs lines Hreq Hlabel Hscan IH].
  - now exists [].
  - destruct IH as (labels & Hlen & -> & Hreqs).
    exists (label :: labels). cbn. rewrite Hlen, Hreq, Hreqs.
    repeat split.
Qed.

Lemma scanned_nth ports exs lines i port :
  scanned ports exs lines -> nth_error ports i = Some port ->
  exists ex label,
    nth_error exs i = Some ex
    /\ nth_error lines i = Some (bullet port label)
    /\ sent_req ex = probe port
    /\ spec_port_label (answer ex) label.
Proof.
  intros Hscan. revert i.
  induction Hscan as [| p ex label ports exs lines Hreq Hlabel Hscan IH];
    intros i Hi.
  - destruct i; discriminate.
  - destruct i as [|i].
    + injection Hi as <-. now exists ex, label.
    + apply IH. exact Hi.
Qed.

(** The whole scan. *)
Lemma run_check_ports w :
  exists exs lines w',
    run send check_ports w
    = {| result :=
           Returns (join nl (($"## Local Port Scan Results" ++ nl) :: lines));
         world := w'; log := exs |}
    /\ scanned common_ports exs lines
    /\ Forall
         (fun ex =>
            sent_cfg ex
            = {| cfg_timeout := 2%float; cfg_follow_redirects := false |})
         exs.
Proof.
  destruct (@exec_check_ports World healthy healthy send w w eq_refl)
    as (exs & lines & w2 & Hscan & Hall & Hrun).
  exists exs, lines, w2. split; [| split; [exact Hscan | exact Hall]].
  exact (Hrun (Returns tt) w2 eq_refl).
Qed.

Ltac next_port H :=
  let ex := fresh "ex" in
  let label := fresh "label" in
  let Hreq := fresh "Hreq" in
  let Hlabel := fresh "Hlabel" in
  inversion H as [| ? ex label ? ? ? Hreq Hlabel H']; subst; clear H;
  rename H' into H.

(** C4. Whatever the probes come to (a response, a refused connection,
    a timeout, any other error), the scan, run with a client that is set
    up and closed without failure, returns its report, and the report
    is the heading, an empty line, and then exactly one bullet for
    each port, nine of them, in the order 3000, 3001, 4000, 5000, 5173,
    5174, 8000, 8080, 8888, each with the label of what the probe of that
    port came to; the probes went out in that order too. *)
Theorem check_ports_order w :
  let r := run send check_ports w in
  exists l0 l1 l2 l3 l4 l5 l6 l7 l8 : pystr,
    result r
    = Returns
        ($"## Local Port Scan Results" ++ nl
         ++ nl ++ $"- **Port 3000:** " ++ l0
         ++ nl ++ $"- **Port 3001:** " ++ l1
         ++ nl ++ $"- **Port 4000:** " ++ l2
         ++ nl ++ $"- **Port 5000:** " ++ l3
         ++ nl ++ $"- **Port 5173:** " ++ l4
         ++ nl ++ $"- **Port 5174:** " ++ l5
         ++ nl ++ $"- **Port 8000:** " ++ l6
         ++ nl ++ $"- **Port 8080:** " ++ l7
         ++ nl ++ $"- **Port 8888:** " ++ l8)
    /\ Forall2 spec_port_label (map answer (log r))
         [l0; l1; l2; l3; l4; l5; l6; l7; l8]
    /\ map (fun ex => req_url (sent_req ex)) (log r)
       = [ $"http://localhost:3000/"; $"http://localhost:3001/";
           $"http://localhost:4000/"; $"http://localhost:5000/";
           $"http://localhost:5173/"; $"http://localhost:5174/";
           $"http://localhost:8000/"; $"http://localhost:8080/";
           $"http://localhost:8888/" ].
Proof.
  intros r. subst r.
  destruct (run_check_ports w) as (exs & lines & w' & -> & Hscan & _).
  cbn [result log]. unfold common_ports in Hscan.
  do 9 next_port Hscan. inversion Hscan; subst; clear Hscan.
  exists label, label0, label1, label2, label3, label4, label5, label6,
    label7.
  split; [| split].
  - cbn [join]. unfold bullet. rewrite <- !app_assoc. reflexivity.
  - cbn [map]. repeat (constructor; [assumption |]). constructor.
  - cbn [map].
    repeat match goal with H : sent_req _ = _ |- _ => rewrite H; clear H end.
    reflexivity.
Qed.

(** C5. For the port at each place of the list, the bullet at the same
    place of the report carries the label of what the probe of that port
    came to: a response, with any status code, gives OPEN with that
    status code; a connection failure gives the closed label; a timeout
    gives the timeout label, which says the port might be busy; any other
    error gives the error label with the name of the error's class. The
    report is the heading followed by the nine bullets, each on a line
    of its own. *)
Theorem check_ports_outcome_mapping w i port :
  nth_error common_ports i = Some port ->
  let r := run send check_ports w in
  exists ex label lines,
    result r
    = Returns
        ($"## Local Port Scan Results" ++ nl
         ++ List.concat (map (fun line => nl ++ line) lines))
    /\ List.length lines = 9%nat
    /\ nth_error (log r) i = Some ex
    /\ req_method (sent_req ex) = $"GET"
    /\ req_url (sent_req ex)
       = $"http://localhost:" ++ str_of_int port ++ $"/"
    /\ nth_error lines i
       = Some ($"- **Port " ++ str_of_int port ++ $":** " ++ label)
    /\ match answer ex with
       | Returns response =>
           label = $"✅ **OPEN** - Status "
                   ++ str_of_int (Response.status_code response)
       | Raises (ConnectError _) => label = $"❌ Closed/Not responding"
       | Raises (TimeoutException _ _) =>
           label = $"⏳ Timeout (might be busy)"
       | Raises (HTTPStatusError _ _) =>
           label = $"⚠️ Error: " ++ $"HTTPStatusError"
       | Raises (OtherException name _) => label = $"⚠️ Error: " ++ name
       end
    /\ (forall response,
          answer ex = Returns response ->
          Response.status_code response = 200 ->
          label = $"✅ **OPEN** - Status 200").
Proof.
  intros Hi r. subst r.
  destruct (run_check_ports w) as (exs & lines & w' & -> & Hscan & _).
  destruct (@scanned_nth _ _ _ _ _ Hscan Hi)
    as (ex & label & Hex & Hline & Hreq & Hl).
  destruct (scanned_labels Hscan) as (labels & Hlen & Hlines & _).
  assert (Hjoin :
    join nl (($"## Local Port Scan Results" ++ nl) :: lines)
    = $"## Local Port Scan Results" ++ nl
      ++ List.concat (map (fun line => nl ++ line) lines)).
  { pose proof Hscan as Hs. unfold common_ports in Hs.
    do 9 next_port Hs. inversion Hs; subst.
    cbn [join map List.concat]. rewrite <- !app_assoc, app_nil_r.
    reflexivity. }
  exists ex, label, lines. cbn [result log].
  split; [now rewrite Hjoin |].
  split; [rewrite Hlines, length_map, length_combine, Hlen;
          apply Nat.min_id |].
  split; [exact Hex |]. rewrite Hreq. cbn [probe req_method req_url].
  split; [reflexivity | split; [reflexivity | split; [exact Hline |]]].
  split.
  - destruct Hl as [r | msg | cls msg | e Hc Ht]; try reflexivity.
    destruct e; try discriminate; reflexivity.
  - intros response Hans Hcode. rewrite Hans in Hl.
    inversion Hl; subst. now rewrite Hcode.
Qed.

(** *** Further properties of the scan *)


(** A label has no newline in it, unless the name of an exception's
    class has. *)
Lemma label_newlines o label :
  spec_port_label o label ->
  (forall name msg, o = Raises (OtherException name msg) ->
                    ~ In 10%N name) ->
  newlines label = 0%nat.
Proof.
  intros Hl Hname. destruct Hl as [r | msg | cls msg | e Hc Ht].
  - rewrite newlines_app, str_of_int_newlines. reflexivity.
  - reflexivity.
  - reflexivity.
  - rewrite newlines_app. destruct e as [| | | name msg]; try discriminate.
    + reflexivity.
    + cbn [type_name_of]. unfold newlines at 2.
      rewrite (proj1 (count_occ_not_In N.eq_dec _ _) (Hname _ _ eq_refl)).
      reflexivity.
Qed.

Lemma bullet_newlines port label :
  newlines label = 0%nat -> newlines (bullet port label) = 0%nat.
Proof.
  intros Hl. unfold bullet.
  rewrite !newlines_app, str_of_int_newlines, Hl. reflexivity.
Qed.

Lemma scanned_lines ports exs lines :
  scanned ports exs lines ->
  (forall ex name msg,
     In ex exs -> answer ex = Raises (OtherException name msg) ->
     ~ In 10%N name) ->
  List.length lines = List.length ports
  /\ Forall (fun line => newlines line = 0%nat) lines.
Proof.
  induction 1 as [| port ex label ports exs lines Hreq Hlabel Hscan IH];
    intros Hnames.
  - split; constructor.
  - destruct IH as [Hlen Hall].
    { intros ex' name msg Hin. apply Hnames. now right. }
    split; [cbn; now rewrite Hlen |].
    constructor; [| exact Hall].
    apply bullet_newlines. apply (label_newlines Hlabel).
    intros name msg. apply Hnames. now left.
Qed.

Lemma list_sum_zero (f : pystr -> nat) (l : list pystr) :
  Forall (fun x => f x = 0%nat) l -> list_sum (map f l) = 0%nat.
Proof.
  induction 1 as [| x l Hx Hl IH]; [reflexivity |].
  cbn [map]. unfold list_sum in *. cbn [fold_right]. now rewrite Hx, IH.
Qed.

(** X11. Provided no exception met during the scan has a newline in the
    name of its class, every bullet of the report is a single line: the
    report is the heading and nine bullets without newlines, joined by
    newlines, and so has exactly ten newline characters (the heading line
    ends in one of its own, which leaves an empty line under it). *)
Theorem check_ports_report_lines w :
  let r := run send check_ports w in
  (forall ex name msg,
     In ex (log r) -> answer ex = Raises (OtherException name msg) ->
     ~ In 10%N name) ->
  exists lines,
    result r
    = Returns (join nl (($"## Local Port Scan Results" ++ nl) :: lines))
    /\ List.length lines = 9%nat
    /\ Forall (fun line => newlines line = 0%nat) lines
    /\ newlines (join nl (($"## Local Port Scan Results" ++ nl) :: lines))
       = 10%nat.
Proof.
  intros r. subst r.
  destruct (run_check_ports w) as (exs & lines & w' & -> & Hscan & _).
  cbn [result log]. intros Hnames.
  destruct (scanned_lines Hscan Hnames) as [Hlen Hall].
  exists lines. split; [reflexivity | split; [exact Hlen | split]].
  - exact Hall.
  - rewrite newlines_join by discriminate.
    cbn [map List.length]. unfold list_sum. cbn [fold_right].
    fold (list_sum (map newlines lines)).
    rewrite (list_sum_zero newlines Hall), Hlen.
    reflexivity.
Qed.

End Scan.

(** *** Setting up and closing the client *)

Section Lifecycle.
Variable World : Type.
Variable opening closing : World -> ClientConfig -> outcome unit * World.
Variable send :
  World -> ClientConfig -> RequestArgs -> outcome Response.t * World.
Variable unicode_upper : N -> pystr.
Variable float_str : float -> pystr.

(** X12. The [async with] that sets up the client stands outside the
    [try], so no [except] clause covers it: when constructing or entering
    the client raises, [make_request] raises that very exception, and no
    request is sent. *)
Theorem make_request_client_failure_propagates
    url method headers body timeout w e w1 :
  opening w {| cfg_timeout := timeout; cfg_follow_redirects := true |}
  = (Raises e, w1) ->
  let r :=
    exec opening closing send
      (make_request unicode_upper float_str url method headers body timeout)
      w in
  result r = Raises e /\ log r = [] /\ world r = w1.
Proof.
  intros Hopen r. subst r.
  rewrite (@exec_make_request_fails World opening closing send unicode_upper
             float_str url method headers body timeout w e w1 Hopen).
  repeat split.
Qed.

(** What [make_request] comes to once its client is set up. *)
Lemma exec_make_request_cases url method headers body timeout w w1 :
  opening w (client_of timeout) = (Returns tt, w1) ->
  exists o w2 closed w3,
    send w1 (client_of timeout)
      (outgoing unicode_upper url method headers body) = (o, w2)
    /\ closing w2 (client_of timeout) = (closed, w3)
    /\ exec opening closing send
         (make_request unicode_upper float_str url method headers body
            timeout) w
       = {| result :=
              match closed with
              | Raises e => Raises e
              | Returns _ =>
                  match o with
                  | Returns response =>
                      Returns (format_response url response)
                  | Raises e =>
                      match dispatch e
                              (make_request_clauses float_str url timeout)
                      with
                      | Pure r => r
                      | _ => Raises e
                      end
                  end
              end;
            world := w3;
            log := [{| sent_cfg := client_of timeout;
                       sent_req :=
                         outgoing unicode_upper url method headers body;
                       answer := o |}] |}.
Proof.
  intros Hopen.
  destruct (send w1 (client_of timeout)
              (outgoing unicode_upper url method headers body))
    as [o w2] eqn:Hsend.
  destruct (closing w2 (client_of timeout)) as [closed w3] eqn:Hclose.
  exists o, w2, closed, w3. split; [reflexivity | split; [exact Hclose |]].
  now apply exec_make_request with (w1 := w1) (w2 := w2).
Qed.

(** X1. Once its client is set up, [fetch_url] calls [client.request]
    exactly once, whatever the answer (the code never retries; following
    redirects is left to the library, inside that call): with the URL it
    was given, the method upper-cased, through a client that has the
    caller's timeout and redirect following switched on. It then returns
    a string, unless closing the client raises, in which case that
    exception is what the call ends in. *)
Theorem fetch_url_single_request params w w1 :
  opening w {| cfg_timeout := FetchUrlInput.timeout params;
               cfg_follow_redirects := true |} = (Returns tt, w1) ->
  let r := exec opening closing send (fetch_url unicode_upper float_str params)
             w in
  exists ex w2,
    log r = [ex]
    /\ req_url (sent_req ex) = FetchUrlInput.url params
    /\ req_method (sent_req ex)
       = method_upper unicode_upper (FetchUrlInput.method params)
    /\ cfg_timeout (sent_cfg ex) = FetchUrlInput.timeout params
    /\ cfg_follow_redirects (sent_cfg ex) = true
    /\ send w1 (sent_cfg ex) (sent_req ex) = (answer ex, w2)
    /\ match closing w2 (sent_cfg ex) with
       | (Returns _, w3) => world r = w3 /\ exists s, result r = Returns s
       | (Raises e, w3) => world r = w3 /\ result r = Raises e
       end.
Proof.
  intros Hopen r. subst r. unfold fetch_url.
  destruct (exec_make_request_cases (FetchUrlInput.url params)
              (FetchUrlInput.method params) (FetchUrlInput.headers params)
              (FetchUrlInput.body params) Hopen)
    as (o & w2 & closed & w3 & Hsend & Hclose & ->).
  cbn [result world log]. eexists. exists w2.
  split; [reflexivity |].
  cbn [sent_req sent_cfg answer]. unfold outgoing, client_of in *.
  cbn [req_url req_method cfg_timeout cfg_follow_redirects].
  do 4 (split; [reflexivity |]). split; [exact Hsend |].
  rewrite Hclose. destruct closed as [[] | e]; (split; [reflexivity |]);
    [| reflexivity].
  destruct o as [response | [msg | cls msg | msg response | name msg]];
    cbn; eexists; reflexivity.
Qed.

(** C1, as the code has it. Whatever the URL, method, headers, body and
    timeout, once the client is set up every failure of the request is
    turned into text and none of them propagates: unless closing the
    client raises, [make_request] returns a string that is not empty,
    and each kind of failure raised inside the request block (connection
    error, timeout, HTTP status error, any other exception) has its own
    message: the connection error names the URL and carries the error's
    text, the timeout names the URL and the timeout, the status error
    gives code and reason, any other exception its class name and
    text. *)
Theorem request_failures_become_text url method headers body timeout w w1 :
  opening w {| cfg_timeout := timeout; cfg_follow_redirects := true |}
  = (Returns tt, w1) ->
  let r :=
    exec opening closing send
      (make_request unicode_upper float_str url method headers body timeout)
      w in
  exists ex w2,
    log r = [ex]
    /\ send w1 (sent_cfg ex) (sent_req ex) = (answer ex, w2)
    /\ match closing w2 (sent_cfg ex) with
       | (Raises e, _) => result r = Raises e
       | (Returns _, _) =>
           exists s,
             result r = Returns s /\ s <> []
             /\ match answer ex with
                | Returns response => s = format_response url response
                | Raises (ConnectError msg) =>
                    s = $"**Connection Error:** Could not connect to " ++ url
                        ++ nl ++ nl
                        ++ $"Make sure the server is running. Error: " ++ msg
                | Raises (TimeoutException _ _) =>
                    s = $"**Timeout:** Request to " ++ url
                        ++ $" timed out after "
                        ++ float_str timeout ++ $" seconds"
                | Raises (HTTPStatusError _ response) =>
                    s = $"**HTTP Error:** "
                        ++ str_of_int (Response.status_code response)
                        ++ $" - " ++ Response.reason_phrase response
                | Raises (OtherException name msg) =>
                    s = $"**Error:** " ++ name ++ $": " ++ msg
                end
       end.
Proof.
  intros Hopen r. subst r.
  destruct (exec_make_request_cases url method headers body Hopen)
    as (o & w2 & closed & w3 & Hsend & Hclose & ->).
  cbn [result world log]. eexists. exists w2.
  split; [reflexivity |]. cbn [sent_req sent_cfg answer].
  split; [exact Hsend |]. fold (client_of timeout). rewrite Hclose.
  destruct closed as [[] | e]; [| reflexivity].
  destruct o as [response | [msg | cls msg | msg response | name msg]];
    cbn; eexists; (split; [reflexivity | split; [| reflexivity]]).
  - unfold format_response. intros H.
    apply app_eq_nil in H. destruct H as [_ H]. discriminate H.
  - discriminate.
  - discriminate.
  - discriminate.
  - discriminate.
Qed.


End Lifecycle.

(* ================================================================= *)
(** ** The theorems at concrete inputs *)

(** A GET of a closed port reports the connection error and the URL. *)
Example fetch_closed_port :
  result
    (run (Sample.always
            (Raises (ConnectError $"All connection attempts failed")))
       (fetch_url Sample.unicode_upper Sample.float_str
          {| FetchUrlInput.url := $"http://localhost:9999";
             FetchUrlInput.method := $"GET";
             FetchUrlInput.headers := None;
             FetchUrlInput.body := None;
             FetchUrlInput.timeout := DEFAULT_TIMEOUT |}) tt)
  = Returns
      ($"**Connection Error:** Could not connect to http://localhost:9999"
       ++ nl ++ nl
       ++ $"Make sure the server is running. "
       ++ $"Error: All connection attempts failed").
Proof. reflexivity. Qed.

(** A request that times out reports the URL and the timeout. *)
Example fetch_localhost_times_out :
  result
    (run (Sample.always (Raises (TimeoutException ReadTimeout $"")))
       (fetch_localhost Sample.unicode_upper Sample.float_str
          Sample.localhost_input) tt)
  = Returns
      ($"**Timeout:** Request to http://localhost:3000/api/users"
       ++ $" timed out after 30.0 seconds").
Proof. reflexivity. Qed.

(** The scan when only port 5173 listens. *)
Example check_ports_only_5173 :
  result (run Sample.only_5173 check_ports tt)
  = Returns
      (join nl
         [ $"## Local Port Scan Results" ++ nl;
           $"- **Port 3000:** ❌ Closed/Not responding";
           $"- **Port 3001:** ❌ Closed/Not responding";
           $"- **Port 4000:** ❌ Closed/Not responding";
           $"- **Port 5000:** ❌ Closed/Not responding";
           $"- **Port 5173:** ✅ **OPEN** - Status 200";
           $"- **Port 5174:** ❌ Closed/Not responding";
           $"- **Port 8000:** ❌ Closed/Not responding";
           $"- **Port 8080:** ❌ Closed/Not responding";
           $"- **Port 8888:** ❌ Closed/Not responding" ]).
Proof. vm_compute. reflexivity. Qed.

(** [truncation_law] on a response of 500,001 characters. *)
Lemma truncation_law_witness :
  let url := $"http://localhost:8000/big" in
  let r := run (Sample.always (Returns Sample.large)) (Sample.get url) tt in
  log r = [Sample.get_exchange url (Returns Sample.large)]
  /\ len (Response.text Sample.large) > 500000
  /\ len (slice_to 500000 (Response.text Sample.large)) = 500000.
Proof.
  intros url r.
  assert (Hlog : log r = [Sample.get_exchange url (Returns Sample.large)])
    by reflexivity.
  assert (Hlong : len (Response.text Sample.large) > 500000).
  { unfold len, Sample.large, Sample.long_text. cbn [Response.text].
    rewrite repeat_length. lia. }
  split; [exact Hlog | split; [exact Hlong |]].
  exact (proj1 (proj2 (@truncation_law unit
           (Sample.always (Returns Sample.large)) Sample.unicode_upper
           Sample.float_str url $"GET" None None DEFAULT_TIMEOUT tt
           (Sample.get_exchange url (Returns Sample.large)) Sample.large
           Hlog eq_refl Hlong))).
Defined.

(** [body_inclusion_law] on a body posted in lower case. *)
Lemma body_inclusion_law_witness :
  let r :=
    run (Sample.always (Returns Sample.not_found))
      (make_request Sample.unicode_upper Sample.float_str
         $"http://localhost:3000/api/users" $"post" None (Some $"name=x")
         DEFAULT_TIMEOUT) tt in
  $"name=x" <> []
  /\ exists ex,
       log r = [ex] /\ req_method (sent_req ex) = $"POST"
       /\ req_content (sent_req ex) = Some $"name=x".
Proof.
  intros r.
  assert (Hb : $"name=x" <> []) by discriminate.
  split; [exact Hb |].
  destruct (@body_inclusion_law unit (Sample.always (Returns Sample.not_found))
              Sample.unicode_upper Sample.float_str
              $"http://localhost:3000/api/users" $"post" None $"name=x"
              DEFAULT_TIMEOUT tt Hb) as [(ex & Hlog & Hm & Hiff & _) _].
  exists ex. split; [exact Hlog | split; [exact Hm |]].
  apply Hiff. left. reflexivity.
Defined.

(** [report_sections] on a response that sets two cookies. *)
Lemma report_sections_witness :
  let url := $"http://localhost:3000/" in
  let r :=
    run (Sample.always (Returns Sample.two_cookies)) (Sample.get url) tt in
  log r = [Sample.get_exchange url (Returns Sample.two_cookies)]
  /\ Headers.items (Response.headers Sample.two_cookies)
     = [($"set-cookie", $"a=1, b=2"); ($"content-type", $"text/html")].
Proof.
  intros url r.
  assert (Hlog : log r = [Sample.get_exchange url (Returns Sample.two_cookies)])
    by reflexivity.
  split; [exact Hlog |].
  exact (proj1 (proj2 (@report_sections unit
           (Sample.always (Returns Sample.two_cookies)) Sample.unicode_upper
           Sample.float_str url $"GET" None None DEFAULT_TIMEOUT tt
           (Sample.get_exchange url (Returns Sample.two_cookies))
           Sample.two_cookies Hlog eq_refl))).
Defined.

(** C7, as the specification states it, fails: a response with two
    [set-cookie] headers is reported with a single [set-cookie] line
    holding both values, not with one line for each of its three
    headers. *)
Lemma duplicate_headers_are_merged :
  let url := $"http://localhost:3000/" in
  let r :=
    run (Sample.always (Returns Sample.two_cookies)) (Sample.get url) tt in
  let report (header_list : pystr) :=
    $"## Response from http://localhost:3000/" ++ nl ++ nl
    ++ $"**Status:** 200 OK" ++ nl
    ++ $"**Content-Type:** text/html" ++ nl
    ++ $"**Content-Length:** 2 bytes" ++ nl ++ nl
    ++ $"### Headers" ++ nl
    ++ header_list
    ++ nl ++ $"### Body" ++ nl ++ nl ++ $"```" ++ nl ++ $"hi" ++ nl ++ $"```" in
  spec_header_lines Sample.two_cookies
  = $"- set-cookie: a=1" ++ nl ++ $"- content-type: text/html" ++ nl
    ++ $"- set-cookie: b=2" ++ nl
  /\ result r
     = Returns (report ($"- set-cookie: a=1, b=2" ++ nl
                        ++ $"- content-type: text/html" ++ nl))
  /\ result r <> Returns (report (spec_header_lines Sample.two_cookies)).
Proof.
  intros url r report. split; [reflexivity | split; [reflexivity |]].
  vm_compute. discriminate.
Qed.

(** [short_body_not_truncated] on a two-character body. *)
Lemma short_body_not_truncated_witness :
  let url := $"http://localhost:3000/missing" in
  let r := run (Sample.always (Returns Sample.not_found)) (Sample.get url) tt in
  len (Response.text Sample.not_found) <= 500000
  /\ result r
     = Returns
         (report_layout url 404 $"Not Found" $"text/plain" 2
            ($"- content-type: text/plain" ++ nl) $"no").
Proof.
  intros url r.
  assert (Hshort : len (Response.text Sample.not_found) <= 500000)
    by (vm_compute; discriminate).
  split; [exact Hshort |].
  exact (@short_body_not_truncated unit
           (Sample.always (Returns Sample.not_found)) Sample.unicode_upper
           Sample.float_str url $"GET" None None DEFAULT_TIMEOUT tt
           (Sample.get_exchange url (Returns Sample.not_found))
           Sample.not_found eq_refl eq_refl Hshort).
Defined.

(** [shown_body_bounded] on the response of 500,001 characters. *)
Lemma shown_body_bounded_witness :
  let url := $"http://localhost:8000/big" in
  let r := run (Sample.always (Returns Sample.large)) (Sample.get url) tt in
  log r = [Sample.get_exchange url (Returns Sample.large)]
  /\ exists shown,
       len shown <= 500050
       /\ slice_to 500000 shown = slice_to 500000 Sample.long_text.
Proof.
  intros url r.
  assert (Hlog : log r = [Sample.get_exchange url (Returns Sample.large)])
    by reflexivity.
  split; [exact Hlog |].
  destruct (@shown_body_bounded unit
              (Sample.always (Returns Sample.large)) Sample.unicode_upper
              Sample.float_str url $"GET" None None DEFAULT_TIMEOUT tt
              (Sample.get_exchange url (Returns Sample.large)) Sample.large
              Hlog eq_refl) as (shown & _ & Hlen & Hcut).
  exists shown. split; [exact Hlen | exact Hcut].
Defined.

(** [content_type_unknown_when_absent] on a response without headers. *)
Lemma content_type_unknown_when_absent_witness :
  let url := $"http://localhost:3000/empty" in
  let r := run (Sample.always (Returns Sample.bare)) (Sample.get url) tt in
  ~ In $"content-type" (map fst (Response.headers Sample.bare))
  /\ exists shown,
       result r
       = Returns
           (report_layout url 204 $"No Content" $"unknown" 0 [] shown).
Proof.
  intros url r.
  assert (Hno : ~ In $"content-type" (map fst (Response.headers Sample.bare)))
    by (intros H; exact H).
  split; [exact Hno |].
  exact (@content_type_unknown_when_absent unit
           (Sample.always (Returns Sample.bare)) Sample.unicode_upper
           Sample.float_str url $"GET" None None DEFAULT_TIMEOUT tt
           (Sample.get_exchange url (Returns Sample.bare)) Sample.bare
           eq_refl eq_refl Hno).
Defined.

(** [content_type_line_matches_header_list] on the two-cookie response. *)
Lemma content_type_line_matches_header_list_witness :
  let url := $"http://localhost:3000/" in
  let r :=
    run (Sample.always (Returns Sample.two_cookies)) (Sample.get url) tt in
  In ($"content-type", $"text/html")
    (Headers.items (Response.headers Sample.two_cookies))
  /\ exists shown,
       result r
       = Returns
           (report_layout url 200 $"OK" $"text/html" 2
              ($"- set-cookie: a=1, b=2" ++ nl
               ++ $"- content-type: text/html" ++ nl) shown).
Proof.
  intros url r.
  assert (Hin : In ($"content-type", $"text/html")
                  (Headers.items (Response.headers Sample.two_cookies)))
    by (right; left; reflexivity).
  split; [exact Hin |].
  exact (@content_type_line_matches_header_list unit
           (Sample.always (Returns Sample.two_cookies)) Sample.unicode_upper
           Sample.float_str url $"GET" None None DEFAULT_TIMEOUT tt
           (Sample.get_exchange url (Returns Sample.two_cookies))
           Sample.two_cookies $"text/html" eq_refl eq_refl Hin).
Defined.

(** [distinct_headers_listed_as_received] on a response with one header. *)
Lemma distinct_headers_listed_as_received_witness :
  let url := $"http://localhost:3000/missing" in
  let r := run (Sample.always (Returns Sample.not_found)) (Sample.get url) tt in
  NoDup (map fst (Response.headers Sample.not_found))
  /\ exists shown,
       result r
       = Returns
           (report_layout url 404 $"Not Found" $"text/plain" 2
              ($"- content-type: text/plain" ++ nl) shown).
Proof.
  intros url r.
  assert (Hnd : NoDup (map fst (Response.headers Sample.not_found))).
  { constructor; [intros H; exact H | constructor]. }
  split; [exact Hnd |].
  exact (@distinct_headers_listed_as_received unit
           (Sample.always (Returns Sample.not_found)) Sample.unicode_upper
           Sample.float_str url $"GET" None None DEFAULT_TIMEOUT tt
           (Sample.get_exchange url (Returns Sample.not_found))
           Sample.not_found eq_refl eq_refl Hnd).
Defined.

(** [method_case_insensitive] on [post]. *)
Lemma method_case_insensitive_witness :
  ascii_only $"post"
  /\ make_request Sample.unicode_upper Sample.float_str
       $"http://localhost:3000/api" $"POST" None (Some $"x") DEFAULT_TIMEOUT
     = make_request Sample.unicode_upper Sample.float_str
         $"http://localhost:3000/api" $"post" None (Some $"x") DEFAULT_TIMEOUT.
Proof.
  assert (Hascii : ascii_only $"post")
    by (repeat constructor).
  split; [exact Hascii |].
  exact (@method_case_insensitive Sample.unicode_upper Sample.float_str
           $"http://localhost:3000/api" $"post" None (Some $"x")
           DEFAULT_TIMEOUT Hascii).
Defined.

(** [check_ports_report_lines] on a network where every probe fails with
    an [OSError]. *)
Lemma check_ports_report_lines_witness :
  let r := run Sample.broken check_ports tt in
  (forall ex name msg,
     In ex (log r) -> answer ex = Raises (OtherException name msg) ->
     ~ In 10%N name)
  /\ exists s, result r = Returns s /\ newlines s = 10%nat.
Proof.
  intros r.
  assert (Hnames : forall ex name msg,
             In ex (log r) -> answer ex = Raises (OtherException name msg) ->
             ~ In 10%N name).
  { intros ex name msg Hin Hans. vm_compute in Hin.
    repeat (destruct Hin as [<- | Hin]; [
      cbn [answer] in Hans; injection Hans as <- _; vm_compute;
      intros H; repeat (destruct H as [H | H]; [discriminate H |]); exact H
    |]).
    contradiction Hin. }
  split; [exact Hnames |].
  destruct (@check_ports_report_lines unit Sample.broken tt Hnames)
    as (lines & Hres & _ & _ & Hcount).
  eexists. split; [exact Hres | exact Hcount].
Defined.



(** [check_ports_outcome_mapping] at port 5173, the only one open, with
    the report as it is returned. *)
Lemma check_ports_outcome_mapping_witness :
  let r := run Sample.only_5173 check_ports tt in
  nth_error common_ports 4 = Some 5173
  /\ (exists lines,
        result r
        = Returns
            ($"## Local Port Scan Results" ++ nl
             ++ List.concat (map (fun line => nl ++ line) lines))
        /\ nth_error lines 4
           = Some $"- **Port 5173:** ✅ **OPEN** - Status 200")
  /\ result r
     = Returns
         ($"## Local Port Scan Results" ++ nl
          ++ nl ++ $"- **Port 3000:** ❌ Closed/Not responding"
          ++ nl ++ $"- **Port 3001:** ❌ Closed/Not responding"
          ++ nl ++ $"- **Port 4000:** ❌ Closed/Not responding"
          ++ nl ++ $"- **Port 5000:** ❌ Closed/Not responding"
          ++ nl ++ $"- **Port 5173:** ✅ **OPEN** - Status 200"
          ++ nl ++ $"- **Port 5174:** ❌ Closed/Not responding"
          ++ nl ++ $"- **Port 8000:** ❌ Closed/Not responding"
          ++ nl ++ $"- **Port 8080:** ❌ Closed/Not responding"
          ++ nl ++ $"- **Port 8888:** ❌ Closed/Not responding").
Proof.
  intros r.
  assert (Hi : nth_error common_ports 4 = Some 5173) by reflexivity.
  split; [exact Hi | split; [| vm_compute; reflexivity]].
  destruct (@check_ports_outcome_mapping unit Sample.only_5173 tt 4%nat 5173 Hi)
    as (ex & label & lines & Hres & _ & Hex & _ & _ & Hline & _ & Hopen).
  exists lines. split; [exact Hres |].
  rewrite Hline. vm_compute in Hex. injection Hex as <-.
  rewrite (Hopen Sample.two_cookies eq_refl eq_refl). reflexivity.
Defined.

(** C1, as the specification states it, fails: in a process where no
    client can be set up, [make_request] does not return a string; it
    raises the exception of the constructor, and sends nothing. *)
Lemma make_request_raises_without_client :
  let r :=
    exec Sample.no_client healthy (Sample.always (Returns Sample.not_found))
      (make_request Sample.unicode_upper Sample.float_str
         $"http://localhost:3000/" $"GET" None None DEFAULT_TIMEOUT) tt in
  result r
  = Raises (OtherException $"ValueError" $"Unknown scheme for proxy URL")
  /\ (forall s, result r <> Returns s)
  /\ log r = [].
Proof.
  split; [reflexivity | split; [| reflexivity]].
  intros s H. discriminate H.
Qed.

(** [make_request_client_failure_propagates] in a process where no
    client can be set up: the call raises, and nothing is sent. *)
Lemma make_request_client_failure_propagates_witness :
  let e := OtherException $"ValueError" $"Unknown scheme for proxy URL" in
  let r :=
    exec Sample.no_client healthy (Sample.always (Returns Sample.not_found))
      (make_request Sample.unicode_upper Sample.float_str
         $"http://localhost:3000/" $"GET" None None DEFAULT_TIMEOUT) tt in
  Sample.no_client tt
    {| cfg_timeout := DEFAULT_TIMEOUT; cfg_follow_redirects := true |}
  = (Raises e, tt)
  /\ result r = Raises e /\ log r = [].
Proof.
  intros e r.
  assert (Hopen : Sample.no_client tt
                    {| cfg_timeout := DEFAULT_TIMEOUT;
                       cfg_follow_redirects := true |} = (Raises e, tt))
    by reflexivity.
  split; [exact Hopen |].
  destruct (@make_request_client_failure_propagates unit Sample.no_client
              healthy (Sample.always (Returns Sample.not_found))
              Sample.unicode_upper Sample.float_str
              $"http://localhost:3000/" $"GET" None None DEFAULT_TIMEOUT
              tt e tt Hopen) as (Hres & Hlog & _).
  split; [exact Hres | exact Hlog].
Defined.

(** [fetch_url_single_request] on a GET that is answered with a 404. *)
Lemma fetch_url_single_request_witness :
  let params :=
    {| FetchUrlInput.url := $"http://localhost:3000/missing";
       FetchUrlInput.method := $"get";
       FetchUrlInput.headers := None;
       FetchUrlInput.body := None;
       FetchUrlInput.timeout := 2%float |} in
  let r :=
    exec healthy healthy (Sample.always (Returns Sample.not_found))
      (fetch_url Sample.unicode_upper Sample.float_str params) tt in
  healthy tt {| cfg_timeout := 2%float; cfg_follow_redirects := true |}
  = (Returns tt, tt)
  /\ exists ex,
       log r = [ex]
       /\ req_url (sent_req ex) = $"http://localhost:3000/missing"
       /\ req_method (sent_req ex) = $"GET"
       /\ cfg_timeout (sent_cfg ex) = 2%float.
Proof.
  intros params r.
  assert (Hopen : healthy tt {| cfg_timeout := 2%float;
                                cfg_follow_redirects := true |}
                  = (Returns tt, tt)) by reflexivity.
  split; [exact Hopen |].
  destruct (@fetch_url_single_request unit healthy healthy
              (Sample.always (Returns Sample.not_found))
              Sample.unicode_upper Sample.float_str params tt tt Hopen)
    as (ex & w2 & Hlog & Hurl & Hmethod & Htimeout & _).
  exists ex. repeat split; assumption.
Defined.

(** [request_failures_become_text] on a request that ends in an
    [HTTPStatusError]. *)
Lemma request_failures_become_text_witness :
  let url := $"http://localhost:3000/busy" in
  let e :=
    HTTPStatusError $"Server error '503 Service Unavailable'"
      Sample.unavailable in
  let r :=
    exec healthy healthy (Sample.always (Raises e)) (Sample.get url) tt in
  healthy tt {| cfg_timeout := DEFAULT_TIMEOUT; cfg_follow_redirects := true |}
  = (Returns tt, tt)
  /\ result r = Returns $"**HTTP Error:** 503 - Service Unavailable".
Proof.
  intros url e r.
  assert (Hopen : healthy tt {| cfg_timeout := DEFAULT_TIMEOUT;
                                cfg_follow_redirects := true |}
                  = (Returns tt, tt)) by reflexivity.
  split; [exact Hopen |].
  destruct (@request_failures_become_text unit healthy healthy
              (Sample.always (Raises e))
              Sample.unicode_upper Sample.float_str url $"GET" None None
              DEFAULT_TIMEOUT tt tt Hopen)
    as (ex & w2 & Hlog & _ & Hend).
  injection Hlog as <-. cbn in Hend.
  destruct Hend as (s & Hres & _ & Hs).
  transitivity (Returns s); [exact Hres | rewrite Hs; reflexivity].
Defined.

